(** * Door Safety display client: a shallow embedding and its properties

    The repository holds two variants of one React Native component:
    - [src/App.tsx]: live feed, history persisted in AsyncStorage,
      pull-to-refresh, image heights probed with [Image.getSize];
    - the earlier variant (file [part_000]): live feed and in-memory history only.

    Event handlers are embedded as programs of a state-and-exception monad
    over the component state.  What the handlers obtain from the device (the
    clock, the image probe, whether a storage call is rejected) is passed in an
    [Env]; what they use of the JavaScript engine ([JSON.parse],
    [JSON.stringify], numeric coercion, the window width) is a [Platform].
    A handler is run to completion: an [await] is a sequencing point, and the
    variable [history] that the socket handler of [src/App.tsx] closes over is
    an explicit argument of [App.onmessage]; [App.System] puts the handlers
    together, with the list that the handler in place has seen.  A run of
    that handler is also given part by part, between its awaits, and the
    load effect and the refresh gesture under any React root.  What a
    component returns is a tree of [element]s. *)

From Stdlib Require Import String Ascii List ZArith Floats Bool Lia.
From stdpp Require Import base option list gmap strings pretty.

#[local] Set Warnings "-register-all".
#[local] Open Scope string_scope.

(** ** JavaScript values

    The values that [JSON.parse] produces, and [undefined] (the result of
    reading a property that is not there).  An object lists its own
    properties in insertion order, each key once. *)

Inductive value : Type :=
| VUndefined
| VNull
| VBool (b : bool)
| VNum (n : float)
| VStr (s : string)
| VArr (elems : list value)
| VObj (props : list (string * value)).

(** What a [catch] clause can receive in this program. *)
Inductive exn : Type :=
| SyntaxError    (* thrown by JSON.parse *)
| TypeError      (* property read on null or undefined, spread of a non-iterable *)
| StorageError.  (* rejection of an AsyncStorage promise *)

Definition nat_to_float (n : nat) : float :=
  PrimFloat.of_uint63 (Uint63.of_Z (Z.of_nat n)).

(** ToBoolean. *)
Definition truthy (v : value) : bool :=
  match v with
  | VUndefined | VNull => false
  | VBool b => b
  | VNum n => (PrimFloat.ltb n 0 || PrimFloat.ltb 0 n)%bool   (* not 0, -0 or NaN *)
  | VStr s => negb (String.eqb s "")
  | VArr _ | VObj _ => true
  end.

(** [v === lit] for a string literal [lit]. *)
Definition strict_eq_string (v : value) (lit : string) : bool :=
  match v with
  | VStr s => String.eqb s lit
  | _ => false
  end.

(** Strings are kept as UTF-8 byte strings; a byte [10xxxxxx] continues a
    code point. *)
Definition utf8_continuation (c : ascii) : bool :=
  let n := nat_of_ascii c in (128 <=? n)%nat && (n <? 192)%nat.

(** The code points of a string, each as a string of its own (what iterating
    a string yields). *)
Fixpoint code_points (s : string) : list string :=
  match s with
  | EmptyString => []
  | String c rest =>
      match code_points rest with
      | p :: ps =>
          match rest with
          | String c' _ => if utf8_continuation c' then String c p :: ps
                           else String c "" :: p :: ps
          | EmptyString => String c "" :: p :: ps
          end
      | [] => [String c ""]
      end
  end.

(** [s.length]: UTF-16 code units, two for a code point outside the BMP
    (lead byte [11110xxx]). *)
Definition utf16_units (p : string) : nat :=
  match p with
  | String c _ => if (240 <=? nat_of_ascii c)%nat then 2 else 1
  | EmptyString => 0
  end.

Definition js_length (s : string) : nat :=
  list_sum (map utf16_units (code_points s)).

(** The array index a property name denotes: a canonical decimal numeral. *)
Definition digit_of (c : ascii) : option nat :=
  let n := nat_of_ascii c in
  if (48 <=? n)%nat && (n <=? 57)%nat then Some (n - 48) else None.

Fixpoint digits_value (s : string) (acc : nat) : option nat :=
  match s with
  | EmptyString => Some acc
  | String c rest =>
      match digit_of c with
      | Some d => digits_value rest (10 * acc + d)
      | None => None
      end
  end.

Definition array_index (k : string) : option nat :=
  match k with
  | EmptyString => None
  | String "0" EmptyString => Some 0
  | String "0" _ => None
  | _ => digits_value k 0
  end.

Definition own_prop (props : list (string * value)) (k : string) : value :=
  match find (fun p => String.eqb (fst p) k) props with
  | Some p => snd p
  | None => VUndefined
  end.

(** [v.k] and [v[i]] (with [k] the numeral of [i]) for the property names the
    program reads; none of them is defined on a prototype.  An indexed read of
    a string yields the code point at that position, which the program only
    ever reads a property of. *)
Definition get_prop (v : value) (k : string) : exn + value :=
  match v with
  | VUndefined | VNull => inl TypeError
  | VBool _ | VNum _ => inr VUndefined
  | VStr s =>
      if String.eqb k "length" then inr (VNum (nat_to_float (js_length s)))
      else match array_index k with
           | Some i => inr (from_option VStr VUndefined (code_points s !! i))
           | None => inr VUndefined
           end
  | VArr l =>
      if String.eqb k "length" then inr (VNum (nat_to_float (length l)))
      else match array_index k with
           | Some i => inr (default VUndefined (l !! i))
           | None => inr VUndefined
           end
  | VObj props => inr (own_prop props k)
  end.

(** The elements that [...v] contributes to an array literal. *)
Definition spread (v : value) : exn + list value :=
  match v with
  | VArr l => inr l
  | VStr s => inr (map VStr (code_points s))
  | _ => inl TypeError
  end.

(** The test that both socket handlers apply to a decoded payload:
    [data.message === 'New image' && data.url], for a payload whose
    properties can be read. *)
Definition new_image_payload (data : value) : bool :=
  match get_prop data "message" with
  | inr message =>
      strict_eq_string message "New image"
      && match get_prop data "url" with
         | inr url => truthy url
         | inl _ => false
         end
  | inl _ => false
  end.

(** ** The engine and the device *)

(** What the program uses of the JavaScript engine and of React Native. *)
Class Platform : Type := {
  (** [JSON.parse]; [None] when it throws a SyntaxError. *)
  JSON_parse : string -> option value;
  (** [JSON.stringify] of a value without [undefined]. *)
  JSON_stringify : value -> string;
  (** ToNumber of a string, array or object. *)
  ToNumber : value -> float;
  (** [Dimensions.get('window').width]. *)
  window_width : float;
}.

(** The outcome of [Image.getSize], which is taken to answer: one of its
    two callbacks is called. *)
Inductive probe : Type :=
| Size (width height : float)
| NoSize (error : string).

(** What one run of a handler obtains from the device. *)
Record Env : Type := mkEnv {
  now : string;                  (* new Date().toLocaleString() *)
  getSize : value -> probe;      (* Image.getSize, by image reference *)
  getItem_ok : bool;             (* AsyncStorage.getItem resolves *)
  setItem_ok : bool;             (* AsyncStorage.setItem resolves *)
}.

(** [WebSocket.readyState]. *)
Inductive readyState : Type := CONNECTING | OPEN | CLOSING | CLOSED.

(** The second argument of a [console.log] call, if any. *)
Inductive log_arg : Type :=
| LNone
| LStr (s : string)
| LVal (v : value)
| LErr (e : exn).

(** [x > 0]. *)
Definition gt_zero `{Platform} (v : value) : bool :=
  match v with
  | VUndefined => false                 (* NaN *)
  | VNull => false                      (* +0 *)
  | VBool b => b
  | VNum n => PrimFloat.ltb 0 n
  | _ => PrimFloat.ltb 0 (ToNumber v)
  end.

(** ** Handlers as programs

    A program over a state [S] either completes with a result or throws,
    and leaves a state either way. *)

Definition M (S A : Type) : Type := S -> (exn + A) * S.

Definition ret {S A} (a : A) : M S A := fun st => (inr a, st).

Definition throw {S A} (e : exn) : M S A := fun st => (inl e, st).

Definition bind {S A B} (c : M S A) (k : A -> M S B) : M S B :=
  fun st =>
    match c st with
    | (inr a, st') => k a st'
    | (inl e, st') => (inl e, st')
    end.

(** [try { body } catch (err) { handler }]. *)
Definition try_catch {S A} (body : M S A) (handler : exn -> M S A) : M S A :=
  fun st =>
    match body st with
    | (inr a, st') => (inr a, st')
    | (inl e, st') => handler e st'
    end.

Definition gets {S A} (f : S -> A) : M S A := fun st => (inr (f st), st).

Definition modify {S} (f : S -> S) : M S unit := fun st => (inr tt, f st).

(** An expression that may throw, evaluated inside a program. *)
Definition lift {S A} (r : exn + A) : M S A :=
  match r with
  | inr a => ret a
  | inl e => throw e
  end.

Definition exec {S A} (c : M S A) (st : S) : S := snd (c st).

Definition outcome {S A} (c : M S A) (st : S) : exn + A := fst (c st).

Declare Scope js_scope.
Delimit Scope js_scope with js.
Notation "x <- c ;; k" := (bind c (fun x => k))
  (at level 100, c at next level, k at level 200, right associativity) : js_scope.
Notation "c ;; k" := (bind c (fun _ => k))
  (at level 100, k at level 200, right associativity) : js_scope.
#[local] Open Scope js_scope.

(** ** What a render returns

    The elements that the components return, with the props that depend on
    the state; the style sheets and the other constant props are left out.
    A component element ([EHistoryImage]) is not rendered by the component
    that returns it. *)

Inductive element : Type :=
| EText (content : value)
| EImage (uri : value) (height : option float)
| EView (key : option nat) (children : list element)
| EScrollView (refreshing : option bool) (children : list element)
| EHistoryImage (key : nat) (item : value) (screenWidth : float).

(** ** [src/App.tsx] *)

Module App.

(** The hooks of the component ([useState], [useRef]) and what the component
    reaches on the device: the storage, the frames sent on the socket and the
    console. *)
Record State : Type := mkState {
  status : string;
  imageUri : value;
  imageHeight : float;
  history : value;
  refreshing : bool;
  wsRef : option readyState;         (* wsRef.current, by its readyState *)
  storage : gmap string string;      (* AsyncStorage *)
  sent : list string;                (* frames passed to ws.send, oldest first *)
  console : list (string * log_arg); (* console.log calls, oldest first *)
}.

Definition initial (store : gmap string string) : State :=
  {| status := "Disconnected"; imageUri := VNull; imageHeight := 250;
     history := VArr []; refreshing := false; wsRef := None;
     storage := store; sent := []; console := [] |}.

Definition with_status (x : string) (st : State) : State :=
  mkState x (imageUri st) (imageHeight st) (history st) (refreshing st)
          (wsRef st) (storage st) (sent st) (console st).
Definition with_imageUri (x : value) (st : State) : State :=
  mkState (status st) x (imageHeight st) (history st) (refreshing st)
          (wsRef st) (storage st) (sent st) (console st).
Definition with_imageHeight (x : float) (st : State) : State :=
  mkState (status st) (imageUri st) x (history st) (refreshing st)
          (wsRef st) (storage st) (sent st) (console st).
Definition with_history (x : value) (st : State) : State :=
  mkState (status st) (imageUri st) (imageHeight st) x (refreshing st)
          (wsRef st) (storage st) (sent st) (console st).
Definition with_refreshing (x : bool) (st : State) : State :=
  mkState (status st) (imageUri st) (imageHeight st) (history st) x
          (wsRef st) (storage st) (sent st) (console st).
Definition with_wsRef (x : option readyState) (st : State) : State :=
  mkState (status st) (imageUri st) (imageHeight st) (history st) (refreshing st)
          x (storage st) (sent st) (console st).
Definition with_storage (x : gmap string string) (st : State) : State :=
  mkState (status st) (imageUri st) (imageHeight st) (history st) (refreshing st)
          (wsRef st) x (sent st) (console st).
Definition with_sent (x : list string) (st : State) : State :=
  mkState (status st) (imageUri st) (imageHeight st) (history st) (refreshing st)
          (wsRef st) (storage st) x (console st).
Definition with_console (x : list (string * log_arg)) (st : State) : State :=
  mkState (status st) (imageUri st) (imageHeight st) (history st) (refreshing st)
          (wsRef st) (storage st) (sent st) x.

Definition setStatus (x : string) : M State unit := modify (with_status x).
Definition setImageUri (x : value) : M State unit := modify (with_imageUri x).
Definition setImageHeight (x : float) : M State unit := modify (with_imageHeight x).
(** [setHistory(x)] as a state write: the call returns and the component
    renders later, as under a root that batches the write.  [setHistory_on]
    below is the call under any root. *)
Definition setHistory (x : value) : M State unit := modify (with_history x).
Definition setRefreshing (x : bool) : M State unit := modify (with_refreshing x).

Definition console_log (label : string) (arg : log_arg) : M State unit :=
  modify (fun st => with_console (console st ++ [(label, arg)]) st).

Definition AsyncStorage_getItem (env : Env) (key : string) : M State (option string) :=
  if getItem_ok env then gets (fun st => storage st !! key) else throw StorageError.

Definition AsyncStorage_setItem (env : Env) (key text : string) : M State unit :=
  if setItem_ok env then modify (fun st => with_storage (<[key := text]> (storage st)) st)
  else throw StorageError.

(** [ws.send] on an open socket. *)
Definition ws_send (frame : string) : M State unit :=
  modify (fun st => with_sent (sent st ++ [frame]) st).

Definition STORAGE_KEY : string := "@door_safety_history".

(** [if (stored)] on the result of [getItem]: a non-empty string. *)
Definition stored_text (stored : option string) : option string :=
  match stored with
  | Some s => if String.eqb s "" then None else Some s
  | None => None
  end.

Section Handlers.
Context `{Platform}.

Definition screenWidth : float := PrimFloat.sub window_width 40.

Definition parse (text : string) : M State value :=
  match JSON_parse text with
  | Some v => ret v
  | None => throw SyntaxError
  end.

Definition getDynamicHeight (env : Env) (uri : value) : M State float :=
  match getSize env uri with
  | Size width height =>
      let ratio := PrimFloat.div height width in
      ret (PrimFloat.mul screenWidth ratio)
  | NoSize error =>
      console_log "⚠️ Error getting image size:" (LStr error) ;;
      ret 250%float
  end.

Definition updateMainImage (env : Env) (uri : value) : M State unit :=
  h <- getDynamicHeight env uri ;;
  setImageUri uri ;;
  setImageHeight h.

(** The load effect, run once after the first render. *)
Definition load (env : Env) : M State unit :=
  try_catch
    (stored <- AsyncStorage_getItem env STORAGE_KEY ;;
     match stored_text stored with
     | Some text =>
         parsed <- parse text ;;
         setHistory parsed ;;
         len <- lift (get_prop parsed "length") ;;
         if gt_zero len then
           first <- lift (get_prop parsed "0") ;;
           url <- lift (get_prop first "url") ;;
           updateMainImage env url
         else ret tt
     | None => ret tt
     end)
    (fun err => console_log "⚠️ Error loading history:" (LErr err)).

Definition saveHistory (env : Env) (newHistory : value) : M State unit :=
  try_catch
    (AsyncStorage_setItem env STORAGE_KEY (JSON_stringify newHistory))
    (fun err => console_log "⚠️ Error saving history:" (LErr err)).

Definition onopen : M State unit := setStatus "Connected to server".
Definition onerror : M State unit := setStatus "WebSocket error".
Definition onclose : M State unit := setStatus "Disconnected".

(** [ws.onmessage].  [history_seen] is the variable [history] of the render
    whose effect installed the handler. *)
Definition onmessage (history_seen : value) (env : Env) (e_data : string)
  : M State unit :=
  try_catch
    (data <- parse e_data ;;
     message <- lift (get_prop data "message") ;;
     if strict_eq_string message "New image" then
       url <- lift (get_prop data "url") ;;
       if truthy url then
         let timestamp := now env in
         updateMainImage env url ;;
         let newEntry := VObj [("url", url); ("time", VStr timestamp)] in
         rest <- lift (spread history_seen) ;;
         let updatedHistory := VArr (newEntry :: rest) in
         setHistory updatedHistory ;;
         saveHistory env updatedHistory ;;
         setStatus "Object detected — image received"
       else ret tt
     else ret tt)
    (fun _ => console_log "⚠️ Invalid WS payload:" (LStr e_data)).

(** Pull-to-refresh; the timer that clears [refreshing] 800 ms later is
    [onRefresh_timeout]. *)
Definition onRefresh (env : Env) : M State unit :=
  setRefreshing true ;;
  try_catch
    (stored <- AsyncStorage_getItem env STORAGE_KEY ;;
     match stored_text stored with
     | Some text => parsed <- parse text ;; setHistory parsed
     | None => ret tt
     end ;;
     ws <- gets wsRef ;;
     match ws with
     | Some OPEN =>
         ws_send (JSON_stringify (VObj [("type", VStr "refresh_request")])) ;;
         setStatus "Requested latest image from server..."
     | _ => setStatus "WebSocket not connected — cannot refresh"
     end)
    (fun err => console_log "⚠️ Error refreshing history:" (LErr err)).

Definition onRefresh_timeout : M State unit := setRefreshing false.

(** *** A run of [ws.onmessage], part by part

    The handler is asynchronous.  A run stops at [await updateMainImage(...)]
    until the image probe answers, and the write that [saveHistory] starts,
    which the handler does not await, settles after the run has ended; other
    handlers run in between.  [onmessage] is the three parts below, run
    without interruption. *)

(** On arrival, up to the call of [Image.getSize]: the [url] whose probe the
    run awaits, when the payload qualifies. *)
Definition onmessage_arrives (e_data : string) : M State (option value) :=
  try_catch
    (data <- parse e_data ;;
     message <- lift (get_prop data "message") ;;
     if strict_eq_string message "New image" then
       url <- lift (get_prop data "url") ;;
       if truthy url then ret (Some url) else ret None
     else ret None)
    (fun _ => console_log "⚠️ Invalid WS payload:" (LStr e_data) ;; ret None).

(** When the probe has answered, to the end of the handler: the list whose
    write is under way, unless the spread threw.  The time is the one read on
    arrival. *)
Definition onmessage_resumes (history_seen : value) (env : Env) (e_data : string)
           (url : value) : M State (option value) :=
  try_catch
    (updateMainImage env url ;;
     let newEntry := VObj [("url", url); ("time", VStr (now env))] in
     rest <- lift (spread history_seen) ;;
     let updatedHistory := VArr (newEntry :: rest) in
     setHistory updatedHistory ;;
     setStatus "Object detected — image received" ;;
     ret (Some updatedHistory))
    (fun _ => console_log "⚠️ Invalid WS payload:" (LStr e_data) ;; ret None).

(** When the write has settled: it has been made, or its rejection is
    logged. *)
Definition onmessage_settles (env : Env) (updatedHistory : value) : M State unit :=
  saveHistory env updatedHistory.

(** *** The root

    A state write made after an [await] is not batched by a legacy root: the
    component renders inside the call, and the error of a render that throws
    comes out of the call.  A concurrent root batches every write, and the
    call returns.  A [root] tells what [setHistory(x)] throws, if anything;
    what the hooks hold after a write that throws is of no consequence, the
    tree having been unmounted. *)
Definition root : Type := value -> option exn.

Definition batched : root := fun _ => None.

Definition setHistory_on (throws : root) (x : value) : M State unit :=
  setHistory x ;;
  match throws x with
  | Some e => throw e
  | None => ret tt
  end.

(** The load effect and the refresh gesture, under any root. *)
Definition load_on (throws : root) (env : Env) : M State unit :=
  try_catch
    (stored <- AsyncStorage_getItem env STORAGE_KEY ;;
     match stored_text stored with
     | Some text =>
         parsed <- parse text ;;
         setHistory_on throws parsed ;;
         len <- lift (get_prop parsed "length") ;;
         if gt_zero len then
           first <- lift (get_prop parsed "0") ;;
           url <- lift (get_prop first "url") ;;
           updateMainImage env url
         else ret tt
     | None => ret tt
     end)
    (fun err => console_log "⚠️ Error loading history:" (LErr err)).

Definition onRefresh_on (throws : root) (env : Env) : M State unit :=
  setRefreshing true ;;
  try_catch
    (stored <- AsyncStorage_getItem env STORAGE_KEY ;;
     match stored_text stored with
     | Some text => parsed <- parse text ;; setHistory_on throws parsed
     | None => ret tt
     end ;;
     ws <- gets wsRef ;;
     match ws with
     | Some OPEN =>
         ws_send (JSON_stringify (VObj [("type", VStr "refresh_request")])) ;;
         setStatus "Requested latest image from server..."
     | _ => setStatus "WebSocket not connected — cannot refresh"
     end)
    (fun err => console_log "⚠️ Error refreshing history:" (LErr err)).

(** The effect of a [HistoryImage] row: the height it ends with, from the
    initial 150. *)
Definition HistoryImage (env : Env) (item : value) (screenWidth : float)
  : exn + float :=
  match get_prop item "url" with
  | inl e => inl e
  | inr url =>
      match getSize env url with
      | Size width imgHeight =>
          let ratio := PrimFloat.div imgHeight width in
          inr (PrimFloat.mul screenWidth ratio)
      | NoSize _ => inr 250%float
      end
  end.

(** What a [HistoryImage] row returns, with the height it holds (150 before
    its effect has answered). *)
Definition HistoryImage_initial_height : float := 150.

Definition HistoryImage_view (item : value) (height : float) : exn + element :=
  match get_prop item "url" with
  | inl e => inl e
  | inr url =>
      match get_prop item "time" with
      | inl e => inl e
      | inr time => inr (EView None [EImage url (Some height); EText time])
      end
  end.

(** [history.map(fn)]: only an array has the method. *)
Definition history_map (fn : value -> nat -> element) (history : value)
  : exn + list element :=
  match history with
  | VArr l => inr (imap (fun index item => fn item index) l)
  | _ => inl TypeError
  end.

(** What the component returns. *)
Definition render (st : State) : exn + element :=
  let imageBox :=
    if truthy (imageUri st) then EImage (imageUri st) (Some (imageHeight st))
    else EText (VStr "No image yet") in
  match get_prop (history st) "length" with
  | inl e => inl e
  | inr len =>
      match (if gt_zero len then
               history_map (fun item index => EHistoryImage index item screenWidth)
                           (history st)
             else inr [EText (VStr "No history yet")]) with
      | inl e => inl e
      | inr rows =>
          inr (EView None
                 [EText (VStr "Door Safety System");
                  EText (VStr (status st));
                  EView None [imageBox];
                  EText (VStr "Detection History");
                  EScrollView (Some (refreshing st)) rows])
      end
  end.



(** *** The component over time

    The socket effect depends on [history]: after a render in which the list
    has changed it closes the socket and opens a new one, whose handler sees
    the list of that render.  Until then the handler in place is the one of
    an earlier render. *)

Record System : Type := mkSystem {
  app : State;
  seen : value;   (* the [history] that the socket handler in place closed over *)
}.

(** After the first render: the socket effect has run on the empty list. *)
Definition mount (store : gmap string string) : System :=
  {| app := with_wsRef (Some CONNECTING) (initial store); seen := VArr [] |}.

Inductive event : Type :=
| Loaded (env : Env)                  (* the load effect runs to its end *)
| Rendered                            (* the socket effect runs again, as after
                                         a render in which [history] changed *)
| Socket (state : readyState)         (* the socket changes state *)
| Opened                              (* ws.onopen is called *)
| Message (env : Env) (text : string) (* ws.onmessage runs to its end *)
| Failed                              (* ws.onerror is called *)
| Closed                              (* ws.onclose is called *)
| Refresh (env : Env)                 (* the refresh gesture *)
| RefreshTimeout.

Definition handle (ev : event) (sys : System) : System :=
  match ev with
  | Loaded env => mkSystem (exec (load env) (app sys)) (seen sys)
  | Rendered =>
      mkSystem (with_wsRef (Some CONNECTING) (app sys)) (history (app sys))
  | Socket state => mkSystem (with_wsRef (Some state) (app sys)) (seen sys)
  | Opened => mkSystem (exec onopen (app sys)) (seen sys)
  | Message env text =>
      mkSystem (exec (onmessage (seen sys) env text) (app sys)) (seen sys)
  | Failed => mkSystem (exec onerror (app sys)) (seen sys)
  | Closed => mkSystem (exec onclose (app sys)) (seen sys)
  | Refresh env => mkSystem (exec (onRefresh env) (app sys)) (seen sys)
  | RefreshTimeout => mkSystem (exec onRefresh_timeout (app sys)) (seen sys)
  end.

Definition run_events (evs : list event) (sys : System) : System :=
  fold_left (fun s ev => handle ev s) evs sys.

End Handlers.
End App.

(** ** The earlier variant ([part_000])

    No storage, no refresh, fixed image heights.  The history is only ever
    the empty array or the result of the functional update below, so it is
    kept as the list of its elements. *)

Module Part000.

Record State : Type := mkState {
  status : string;
  imageUri : value;
  history : list value;
  console : list (string * log_arg);
}.

Definition initial : State :=
  {| status := "No object detected"; imageUri := VNull; history := [];
     console := [] |}.

Definition setStatus (x : string) : M State unit :=
  modify (fun st => mkState x (imageUri st) (history st) (console st)).
Definition setImageUri (x : value) : M State unit :=
  modify (fun st => mkState (status st) x (history st) (console st)).
(** [setHistory(update)] with an updater function of the latest list. *)
Definition setHistory (update : list value -> list value) : M State unit :=
  modify (fun st => mkState (status st) (imageUri st) (update (history st)) (console st)).
Definition console_log (label : string) (arg : log_arg) : M State unit :=
  modify (fun st => mkState (status st) (imageUri st) (history st)
                            (console st ++ [(label, arg)])).

Section Handlers.
Context `{Platform}.

Definition parse (text : string) : M State value :=
  match JSON_parse text with
  | Some v => ret v
  | None => throw SyntaxError
  end.

Definition onopen : M State unit :=
  console_log "✅ WebSocket connected" LNone ;;
  setStatus "Connected to server".

Definition onmessage (env : Env) (e_data : string) : M State unit :=
  try_catch
    (data <- parse e_data ;;
     message <- lift (get_prop data "message") ;;
     if strict_eq_string message "New image" then
       url <- lift (get_prop data "url") ;;
       if truthy url then
         let formattedTime := now env in
         setImageUri url ;;
         setStatus "Object detected — image received" ;;
         setHistory (fun prev =>
                       VObj [("url", url); ("time", VStr formattedTime)] :: prev)
       else console_log "ℹ️ WS message:" (LVal data)
     else console_log "ℹ️ WS message:" (LVal data))
    (fun _ => console_log "⚠️ Invalid WS payload:" (LStr e_data)).

Definition onerror (message : string) : M State unit :=
  console_log "❌ WebSocket error:" (LStr message) ;;
  setStatus "WebSocket error".

Definition onclose : M State unit :=
  console_log "🔒 WebSocket closed" LNone ;;
  setStatus "Disconnected".

(** The rows of the history, each made by the callback of [history.map]. *)
Fixpoint history_rows (index : nat) (items : list value) : exn + list element :=
  match items with
  | [] => inr []
  | item :: rest =>
      match get_prop item "url" with
      | inl e => inl e
      | inr url =>
          match get_prop item "time" with
          | inl e => inl e
          | inr time =>
              match history_rows (S index) rest with
              | inl e => inl e
              | inr rows =>
                  inr (EView (Some index) [EImage url None; EText time] :: rows)
              end
          end
      end
  end.

(** What the component returns. *)
Definition render (st : State) : exn + element :=
  let imageBox :=
    if truthy (imageUri st) then EImage (imageUri st) None
    else EText (VStr "No image yet") in
  match (match history st with
         | [] => inr [EText (VStr "No history yet")]
         | _ :: _ => history_rows 0 (history st)
         end) with
  | inl e => inl e
  | inr rows =>
      inr (EView None
             [EText (VStr "Door Safety System");
              EText (VStr (status st));
              EView None [imageBox];
              EText (VStr "Detection History");
              EScrollView None rows])
  end.

(** *** The component over time *)

Inductive event : Type :=
| Opened                              (* ws.onopen is called *)
| Message (env : Env) (text : string) (* ws.onmessage is called *)
| Failed (message : string)           (* ws.onerror is called *)
| Closed.                             (* ws.onclose is called *)

Definition handle (ev : event) (st : State) : State :=
  match ev with
  | Opened => exec onopen st
  | Message env text => exec (onmessage env text) st
  | Failed message => exec (onerror message) st
  | Closed => exec onclose st
  end.

Definition run_events (evs : list event) (st : State) : State :=
  fold_left (fun s ev => handle ev s) evs st.

End Handlers.
End Part000.

(** ** A reference engine

    An executable [Platform], to run the handlers on concrete payloads: a
    JSON decoder and encoder over UTF-8 text, and ToNumber.  Numbers are
    decoded with correct rounding and printed exactly (all their decimal
    digits, where an engine prints the shortest numeral that reads back);
    an escaped lone surrogate is not decoded, and the properties of an
    object stay in the order of the text.  The properties proved for every
    [Platform] do not depend on it; it serves to run them, and it reads back
    what it prints (section ReadBack). *)

Module Reference.

(** The byte of a character, from its bits. *)
Definition code (c : ascii) : nat :=
  let bit (b : bool) (weight : nat) := if b then weight else 0 in
  match c with
  | Ascii b0 b1 b2 b3 b4 b5 b6 b7 =>
      bit b0 1 + bit b1 2 + bit b2 4 + bit b3 8
      + bit b4 16 + bit b5 32 + bit b6 64 + bit b7 128
  end.

Definition quote : ascii := "034".
Definition backslash : ascii := "092".

Definition is_ws (c : ascii) : bool :=
  let n := code c in
  (n =? 32)%nat || (n =? 9)%nat || (n =? 10)%nat || (n =? 13)%nat.

Fixpoint skip_ws (s : string) : string :=
  match s with
  | String c rest => if is_ws c then skip_ws rest else s
  | EmptyString => s
  end.

(** *** Strings *)

Definition hex_digit (c : ascii) : option N :=
  let n := N_of_ascii c in
  if (48 <=? n)%N && (n <=? 57)%N then Some (n - 48)%N
  else if (65 <=? n)%N && (n <=? 70)%N then Some (n - 55)%N
  else if (97 <=? n)%N && (n <=? 102)%N then Some (n - 87)%N
  else None.

Definition hex4 (a b c d : ascii) : option N :=
  x ← hex_digit a; y ← hex_digit b; z ← hex_digit c; w ← hex_digit d;
  Some (((x * 16 + y) * 16 + z) * 16 + w)%N.

Definition byte (n : N) : ascii := ascii_of_N n.

(** UTF-8 of a code point. *)
Definition utf8 (n : N) : string :=
  if (n <? 128)%N then String (byte n) ""
  else if (n <? 2048)%N then
    String (byte (192 + n / 64)) (String (byte (128 + n mod 64)) "")
  else if (n <? 65536)%N then
    String (byte (224 + n / 4096))
      (String (byte (128 + (n / 64) mod 64)) (String (byte (128 + n mod 64)) ""))
  else
    String (byte (240 + n / 262144))
      (String (byte (128 + (n / 4096) mod 64))
         (String (byte (128 + (n / 64) mod 64)) (String (byte (128 + n mod 64)) ""))).

(** The character that a one-letter escape stands for. *)
Definition simple_escape (c : ascii) : option ascii :=
  let n := code c in
  if (n =? 34)%nat then Some quote
  else if (n =? 92)%nat then Some backslash
  else if (n =? 47)%nat then Some "/"%char
  else if (n =? 98)%nat then Some (byte 8)        (* b *)
  else if (n =? 102)%nat then Some (byte 12)      (* f *)
  else if (n =? 110)%nat then Some (byte 10)      (* n *)
  else if (n =? 114)%nat then Some (byte 13)      (* r *)
  else if (n =? 116)%nat then Some (byte 9)       (* t *)
  else None.

(** The text after an opening quote: the string it holds and what follows
    the closing quote. *)
Fixpoint string_body (s : string) : option (string * string) :=
  match s with
  | EmptyString => None
  | String c rest =>
      if (code c =? 34)%nat then Some ("", rest)
      else if (code c =? 92)%nat then
        match rest with
        | String e rest1 =>
            if (code e =? 117)%nat then          (* u and four hex digits *)
              match rest1 with
              | String h1 (String h2 (String h3 (String h4 rest2))) =>
                  n ← hex4 h1 h2 h3 h4;
                  if (n <? 55296)%N || (57344 <=? n)%N then
                    '(str, after) ← string_body rest2;
                    Some (utf8 n +:+ str, after)
                  else if (n <? 56320)%N then    (* high surrogate, then low *)
                    match rest2 with
                    | String b (String u (String l1 (String l2 (String l3 (String l4 rest3))))) =>
                        if (code b =? 92)%nat && (code u =? 117)%nat then
                          m ← hex4 l1 l2 l3 l4;
                          if (56320 <=? m)%N && (m <? 57344)%N then
                            '(str, after) ← string_body rest3;
                            Some (utf8 (65536 + (n - 55296) * 1024 + (m - 56320))%N +:+ str,
                                  after)
                          else None
                        else None
                    | _ => None
                    end
                  else None
              | _ => None
              end
            else
              x ← simple_escape e;
              '(str, after) ← string_body rest1;
              Some (String x str, after)
        | EmptyString => None
        end
      else if (code c <? 32)%nat then None
      else
        '(str, after) ← string_body rest;
        Some (String c str, after)
  end.

(** *** Numbers *)

Definition is_digit (c : ascii) : bool := (48 <=? code c)%nat && (code c <=? 57)%nat.

(** The leading digits of a text: how many, their value, and the rest. *)
Fixpoint digits (s : string) (count : nat) (acc : Z) : nat * Z * string :=
  match s with
  | String c rest =>
      if is_digit c then digits rest (S count) (10 * acc + Z.of_nat (code c - 48))
      else (count, acc, s)
  | EmptyString => (count, acc, s)
  end.

Definition signed_zero (neg : bool) : float :=
  if neg then PrimFloat.neg_zero else PrimFloat.zero.

Definition signed_infinity (neg : bool) : float :=
  if neg then PrimFloat.neg_infinity else PrimFloat.infinity.

(** The double nearest to [m * 10^e], ties to even ([0 <= m]). *)
Definition decimal_to_float (neg : bool) (m e : Z) : float :=
  if (m =? 0)%Z then signed_zero neg
  else if (310 <? e + Z.log2 m / 4)%Z then signed_infinity neg
  else if (e + Z.log2 m / 3 + 1 <? -330)%Z then signed_zero neg
  else
    let sign (x : Z) := if neg then Z.opp x else x in
    if (0 <=? e)%Z then
      SF2Prim (binary_normalize prec emax (sign (m * 10 ^ e)%Z) 0 neg)
    else
      let d := (10 ^ (- e))%Z in
      let k := Z.max 0 (Z.log2 d - Z.log2 m + 60) in
      let q := (m * 2 ^ k / d)%Z in
      let sticky := if (m * 2 ^ k mod d =? 0)%Z then 0%Z else 1%Z in
      SF2Prim (binary_normalize prec emax (sign (2 * q + sticky)%Z) (- k - 1) neg).

(** A decimal numeral without its sign.  [strict] is the grammar of JSON:
    an integer part with no superfluous zero, digits after the point;
    otherwise that of a numeric string, where either side of the point may
    be empty. *)
Definition unsigned_number (strict neg : bool) (s : string) : option (float * string) :=
  let '(n_int, int, s1) := digits s 0 0 in
  let leading_zero := match s with String c _ => (code c =? 48)%nat | _ => false end in
  if strict && ((n_int =? 0)%nat || (leading_zero && negb (n_int =? 1)%nat)) then None
  else
    let '(n_frac, mant, s2) :=
      match s1 with
      | String c after =>
          if (code c =? 46)%nat then digits after 0 int else (0%nat, int, s1)
      | EmptyString => (0%nat, int, s1)
      end in
    let point := negb (String.eqb s1 s2) in
    if (strict && point && (n_frac =? 0)%nat) || (n_int + n_frac =? 0)%nat then None
    else
      '(exp, s3) ←
        match s2 with
        | String c after =>
            if (code c =? 101)%nat || (code c =? 69)%nat then
              let '(eneg, after') :=
                match after with
                | String sg r =>
                    if (code sg =? 45)%nat then (true, r)
                    else if (code sg =? 43)%nat then (false, r)
                    else (false, after)
                | EmptyString => (false, after)
                end in
              let '(n, x, r) := digits after' 0 0 in
              if (n =? 0)%nat then None else Some (if eneg then (- x)%Z else x, r)
            else Some (0%Z, s2)
        | EmptyString => Some (0%Z, s2)
        end;
      Some (decimal_to_float neg mant (exp - Z.of_nat n_frac), s3).

Definition number (s : string) : option (float * string) :=
  match s with
  | String c rest => if (code c =? 45)%nat then unsigned_number true true rest
                     else unsigned_number true false s
  | EmptyString => None
  end.

(** *** Values *)

(** [s] without the literal [lit], if it starts with it. *)
Fixpoint strip_prefix (lit s : string) : option string :=
  match lit, s with
  | EmptyString, _ => Some s
  | String a lit', String b s' => if Ascii.eqb a b then strip_prefix lit' s' else None
  | String _ _, EmptyString => None
  end.

(** Defining a property: a key already there keeps its place. *)
Fixpoint define (props : list (string * value)) (k : string) (v : value)
  : list (string * value) :=
  match props with
  | [] => [(k, v)]
  | (k', v') :: rest =>
      if String.eqb k' k then (k, v) :: rest else (k', v') :: define rest k v
  end.

(** One value at the head of a text (after white space), and the rest.
    [elements] and [members] read what follows an opening bracket or brace
    up to the closing one. *)
Fixpoint parse_value (fuel : nat) (s : string) : option (value * string) :=
  match fuel with
  | O => None
  | S fuel =>
      match skip_ws s with
      | EmptyString => None
      | String c rest as text =>
          if (code c =? 34)%nat then
            '(str, after) ← string_body rest; Some (VStr str, after)
          else if (code c =? 91)%nat then          (* [ *)
            match skip_ws rest with
            | String c' after =>
                if (code c' =? 93)%nat then Some (VArr [], after)
                else '(l, after') ← elements fuel rest; Some (VArr l, after')
            | EmptyString => None
            end
          else if (code c =? 123)%nat then         (* { *)
            match skip_ws rest with
            | String c' after =>
                if (code c' =? 125)%nat then Some (VObj [], after)
                else '(ps, after') ← members fuel rest []; Some (VObj ps, after')
            | EmptyString => None
            end
          else if (code c =? 110)%nat then
            after ← strip_prefix "null" text; Some (VNull, after)
          else if (code c =? 116)%nat then
            after ← strip_prefix "true" text; Some (VBool true, after)
          else if (code c =? 102)%nat then
            after ← strip_prefix "false" text; Some (VBool false, after)
          else
            '(n, after) ← number text; Some (VNum n, after)
      end
  end
with elements (fuel : nat) (s : string) : option (list value * string) :=
  match fuel with
  | O => None
  | S fuel =>
      '(v, after) ← parse_value fuel s;
      match skip_ws after with
      | String c rest =>
          if (code c =? 44)%nat then
            '(l, after') ← elements fuel rest; Some (v :: l, after')
          else if (code c =? 93)%nat then Some ([v], rest)
          else None
      | EmptyString => None
      end
  end
with members (fuel : nat) (s : string) (acc : list (string * value))
  : option (list (string * value) * string) :=
  match fuel with
  | O => None
  | S fuel =>
      match skip_ws s with
      | String q rest =>
          if (code q =? 34)%nat then
            '(k, after) ← string_body rest;
            match skip_ws after with
            | String colon rest' =>
                if (code colon =? 58)%nat then
                  '(v, after') ← parse_value fuel rest';
                  let acc' := define acc k v in
                  match skip_ws after' with
                  | String c rest'' =>
                      if (code c =? 44)%nat then members fuel rest'' acc'
                      else if (code c =? 125)%nat then Some (acc', rest'')
                      else None
                  | EmptyString => None
                  end
                else None
            | EmptyString => None
            end
          else None
      | EmptyString => None
      end
  end.

(** [JSON.parse]: the whole text is one value. *)
Definition parse (text : string) : option value :=
  '(v, after) ← parse_value (2 * String.length text + 2) text;
  match skip_ws after with
  | EmptyString => Some v
  | String _ _ => None
  end.

(** *** Printing *)

Definition hex_char (n : N) : ascii :=
  if (n <? 10)%N then byte (48 + n) else byte (87 + n).

(** A character as it stands in a JSON string. *)
Definition escape_char (c : ascii) : string :=
  let n := code c in
  if (n =? 34)%nat then String backslash (String quote "")
  else if (n =? 92)%nat then String backslash (String backslash "")
  else if (n =? 8)%nat then String backslash "b"
  else if (n =? 12)%nat then String backslash "f"
  else if (n =? 10)%nat then String backslash "n"
  else if (n =? 13)%nat then String backslash "r"
  else if (n =? 9)%nat then String backslash "t"
  else if (n <? 32)%nat then
    String backslash
      (String "u" (String "0" (String "0"
         (String (hex_char (N.of_nat (n / 16)))
            (String (hex_char (N.of_nat (n mod 16))) "")))))
  else String c "".

Fixpoint escape (s : string) : string :=
  match s with
  | EmptyString => ""
  | String c rest => escape_char c +:+ escape rest
  end.

(** A string between quotes, with the escapes that JSON requires. *)
Definition quoted (s : string) : string :=
  String quote (escape s +:+ String quote "").

Definition numeral (n : Z) : string := pretty (Z.to_N n).

(** [text] with zeros in front up to [width] digits. *)
Definition pad (width : nat) (text : string) : string :=
  String.concat "" (replicate (width - String.length text) "0") +:+ text.

Fixpoint strip_zeros (rev_digits : list ascii) : list ascii :=
  match rev_digits with
  | c :: rest => if (code c =? 48)%nat then strip_zeros rest else rev_digits
  | [] => []
  end.

(** The decimal expansion of [m * 2^e], exactly. *)
Definition exact_decimal (m : positive) (e : Z) : string :=
  if (0 <=? e)%Z then numeral (Zpos m * 2 ^ e)
  else
    let d := (- e)%Z in
    let int := (Zpos m / 2 ^ d)%Z in
    let frac := ((Zpos m mod 2 ^ d) * 5 ^ d)%Z in
    let digits := rev (strip_zeros (rev (list_ascii_of_string
                        (pad (Z.to_nat d) (numeral frac))))) in
    match digits with
    | [] => numeral int
    | _ => numeral int +:+ "." +:+ string_of_list_ascii digits
    end.

(** Number::toString, with all the digits. *)
Definition number_text (n : float) : string :=
  match Prim2SF n with
  | S754_zero _ => "0"
  | S754_infinity false => "Infinity"
  | S754_infinity true => "-Infinity"
  | S754_nan => "NaN"
  | S754_finite neg m e => (if neg then "-" else "") +:+ exact_decimal m e
  end.

Definition is_finite (n : float) : bool :=
  match Prim2SF n with
  | S754_zero _ | S754_finite _ _ _ => true
  | _ => false
  end.

Definition join (sep : string) (parts : list string) : string :=
  String.concat sep parts.

(** [JSON.stringify].  In an array [undefined] prints as [null]; a property
    whose value is [undefined] is left out. *)
Definition member_texts (print : value -> string)
  : list (string * value) -> list string :=
  fix go (ps : list (string * value)) : list string :=
    match ps with
    | [] => []
    | (_, VUndefined) :: rest => go rest
    | (k, x) :: rest => (quoted k +:+ ":" +:+ print x) :: go rest
    end.

Fixpoint stringify (v : value) : string :=
  match v with
  | VUndefined | VNull => "null"
  | VBool true => "true"
  | VBool false => "false"
  | VNum n => if is_finite n then number_text n else "null"
  | VStr s => quoted s
  | VArr l => "[" +:+ join "," (map stringify l) +:+ "]"
  | VObj props => "{" +:+ join "," (member_texts stringify props) +:+ "}"
  end.

(** *** ToNumber *)

(** ToString of a value, as [Array.prototype.join] applies it. *)
Fixpoint to_string (v : value) : string :=
  match v with
  | VUndefined | VNull => ""
  | VBool true => "true"
  | VBool false => "false"
  | VNum n => number_text n
  | VStr s => s
  | VArr l => join "," (map to_string l)
  | VObj _ => "[object Object]"
  end.

Definition string_to_number (s : string) : float :=
  match skip_ws s with
  | EmptyString => PrimFloat.zero
  | String c rest as text =>
      let '(neg, body) :=
        if (code c =? 45)%nat then (true, rest)
        else if (code c =? 43)%nat then (false, rest)
        else (false, text) in
      match strip_prefix "Infinity" body with
      | Some after =>
          match skip_ws after with
          | EmptyString => signed_infinity neg
          | String _ _ => PrimFloat.nan
          end
      | None =>
          match unsigned_number false neg body with
          | Some (n, after) =>
              match skip_ws after with
              | EmptyString => n
              | String _ _ => PrimFloat.nan
              end
          | None => PrimFloat.nan
          end
      end
  end.

(** ToNumber of a string, of an array (through its elements joined by
    commas) or of an object.  A string is read as a decimal numeral between
    blanks (space, tab, line feed, carriage return); other white space and
    the literals in another base are not recognised. *)
Definition to_number (v : value) : float :=
  match v with
  | VStr s => string_to_number s
  | VArr _ => string_to_number (to_string v)
  | _ => PrimFloat.nan
  end.

(** *** What the engine reads back *)

(** Values that are printed as they are and read back as they were: no
    number, no [undefined], and no key twice in an object. *)
Definition text_props (check : value -> bool) : list (string * value) -> bool :=
  fix go (ps : list (string * value)) : bool :=
    match ps with
    | [] => true
    | (k, x) :: rest =>
        check x && negb (existsb (fun p => String.eqb (fst p) k) rest) && go rest
    end.

Fixpoint text_value (v : value) : bool :=
  match v with
  | VNull | VBool _ | VStr _ => true
  | VUndefined | VNum _ => false
  | VArr l => forallb text_value l
  | VObj props => text_props text_value props
  end.

(** The size of a value, to reason by induction on it. *)
Definition nodes_props (count : value -> nat) : list (string * value) -> nat :=
  fix go (ps : list (string * value)) : nat :=
    match ps with
    | [] => 0
    | (_, x) :: rest => S (count x) + go rest
    end.

Fixpoint nodes (v : value) : nat :=
  match v with
  | VArr l => S (list_sum (map (fun x => S (nodes x)) l))
  | VObj props => S (nodes_props nodes props)
  | _ => 1
  end.

End Reference.

(** The reference engine on a window 400 units wide. *)
Definition reference : Platform :=
  {| JSON_parse := Reference.parse;
     JSON_stringify := Reference.stringify;
     ToNumber := Reference.to_number;
     window_width := 400 |}.

(** ** Sample traffic *)

Definition field (k v : string) : string :=
  Reference.quoted k +:+ ":" +:+ Reference.quoted v.

(** The wire message for a new image at [url], as the reference engine
    prints it. *)
Definition new_image (url : string) : value :=
  VObj [("message", VStr "New image"); ("url", VStr url)].

Definition new_image_text (url : string) : string :=
  Reference.stringify (new_image url).

Definition ping_text : string :=
  Reference.stringify (VObj [("message", VStr "ping")]).

(** A device on which every call succeeds at 10:00, every image being
    800 by 600. *)
Definition fair_env : Env :=
  {| now := "10:00"; getSize := fun _ => Size 800 600;
     getItem_ok := true; setItem_ok := true |}.

(** A device on which the storage rejects every call and no image can be
    probed. *)
Definition failing_env : Env :=
  {| now := "10:00"; getSize := fun _ => NoSize "unreachable";
     getItem_ok := false; setItem_ok := false |}.

Definition record (url time : string) : value :=
  VObj [("url", VStr url); ("time", VStr time)].

(** ** Vocabulary of the properties *)

(** Two states of [src/App.tsx] that differ at most in the console. *)
Definition App_unchanged (st st' : App.State) : Prop :=
  App.status st' = App.status st
  /\ App.imageUri st' = App.imageUri st
  /\ App.imageHeight st' = App.imageHeight st
  /\ App.history st' = App.history st
  /\ App.refreshing st' = App.refreshing st
  /\ App.wsRef st' = App.wsRef st
  /\ App.storage st' = App.storage st
  /\ App.sent st' = App.sent st.

(** The same for the earlier variant. *)
Definition Part000_unchanged (st st' : Part000.State) : Prop :=
  Part000.status st' = Part000.status st
  /\ Part000.imageUri st' = Part000.imageUri st
  /\ Part000.history st' = Part000.history st.

(** A history list is an array, and the entry of the store, if any, is the
    text of one. *)
Definition is_array (v : value) : Prop := exists l, v = VArr l.

Definition array_text (text : string) : Prop := exists rest, text = String "[" rest.

Definition well_formed (sys : App.System) : Prop :=
  is_array (App.history (App.app sys))
  /\ is_array (App.seen sys)
  /\ forall text, App.storage (App.app sys) !! App.STORAGE_KEY = Some text ->
                  array_text text.

(** The record that a message makes the handlers add, if they act on it. *)
Definition record_of `{Platform} (env : Env) (text : string) : option value :=
  match JSON_parse text with
  | Some data =>
      if new_image_payload data then
        match get_prop data "url" with
        | inr url => Some (VObj [("url", url); ("time", VStr (now env))])
        | inl _ => None
        end
      else None
  | None => None
  end.

(** A record as the handlers make it. *)
Definition is_record (v : value) : Prop :=
  exists url time,
    v = VObj [("url", url); ("time", VStr time)] /\ truthy url = true.

(** The messages of [src/App.tsx], each followed by the re-run of the socket
    effect that the new list causes. *)
Definition in_step (messages : list (Env * string)) : list App.event :=
  flat_map (fun m => [App.Message (fst m) (snd m); App.Rendered]) messages.

(** The records that the messages among the events of the earlier variant
    make its handler add, oldest first. *)
Definition records_of `{Platform} (evs : list Part000.event) : list value :=
  omap (fun ev => match ev with
                  | Part000.Message env text => record_of env text
                  | _ => None
                  end) evs.

(** The control message of the refresh gesture. *)
Definition refresh_request : value := VObj [("type", VStr "refresh_request")].

Definition is_refresh (ev : App.event) : bool :=
  match ev with
  | App.Refresh _ => true
  | _ => false
  end.

(** The refresh gesture and its timer, by which of the two came last. *)
Definition spinner (before : bool) (evs : list App.event) : bool :=
  fold_left (fun on ev => match ev with
                          | App.Refresh _ => true
                          | App.RefreshTimeout => false
                          | _ => on
                          end) evs before.




(** Two runs of one [ws.onmessage], both past their arrival: a part of the
    first or of the second run. *)
Inductive part : Type :=
| Resumes (second : bool)   (* the probe of that run answers *)
| Settles (second : bool).  (* the write of that run settles *)

(** The orders in which the parts of two runs can come. *)
Definition interleavings : list (list part) :=
  [ [Resumes false; Settles false; Resumes true; Settles true];
    [Resumes false; Resumes true; Settles false; Settles true];
    [Resumes false; Resumes true; Settles true; Settles false];
    [Resumes true; Resumes false; Settles false; Settles true];
    [Resumes true; Resumes false; Settles true; Settles false];
    [Resumes true; Settles true; Resumes false; Settles false] ].

(** The hooks and the store, with the list that each run has under way. *)
Record Runs : Type := mkRuns {
  hooks : App.State;
  first_write : option value;
  second_write : option value;
}.

Definition run_part `{Platform} (seen : value) (env1 env2 : Env)
           (text1 text2 : string) (url1 url2 : value) (rs : Runs) (p : part) : Runs :=
  match p with
  | Resumes false =>
      let (result, st) := App.onmessage_resumes seen env1 text1 url1 (hooks rs) in
      mkRuns st (match result with inr w => w | inl _ => None end) (second_write rs)
  | Resumes true =>
      let (result, st) := App.onmessage_resumes seen env2 text2 url2 (hooks rs) in
      mkRuns st (first_write rs) (match result with inr w => w | inl _ => None end)
  | Settles false =>
      match first_write rs with
      | Some updatedHistory =>
          mkRuns (exec (App.onmessage_settles env1 updatedHistory) (hooks rs))
                 None (second_write rs)
      | None => rs
      end
  | Settles true =>
      match second_write rs with
      | Some updatedHistory =>
          mkRuns (exec (App.onmessage_settles env2 updatedHistory) (hooks rs))
                 (first_write rs) None
      | None => rs
      end
  end.

Definition two_runs `{Platform} (seen : value) (env1 env2 : Env)
           (text1 text2 : string) (url1 url2 : value) (schedule : list part)
           (st : App.State) : App.State :=
  hooks (fold_left (run_part seen env1 env2 text1 text2 url1 url2) schedule
                   (mkRuns st None None)).

(** Whether, of the two runs, it is the second whose part comes last. *)
Fixpoint second_is_last (is_part : part -> option bool) (schedule : list part)
         (so_far : bool) : bool :=
  match schedule with
  | [] => so_far
  | p :: rest =>
      second_is_last is_part rest
        (match is_part p with Some second => second | None => so_far end)
  end.

Definition resumes (p : part) : option bool :=
  match p with Resumes second => Some second | Settles _ => None end.

Definition settles (p : part) : option bool :=
  match p with Settles second => Some second | Resumes _ => None end.




(** * Properties *)

(** ** Running a handler *)

Ltac run :=
  unfold exec, outcome, try_catch, bind, lift, ret, throw, gets, modify; cbn.

Lemma strict_eq_string_true (v : value) (lit : string) :
  strict_eq_string v lit = true -> v = VStr lit.
Proof.
  destruct v; cbn; try discriminate.
  intros E. apply String.eqb_eq in E. now subst.
Qed.

(** A property read throws on [undefined] and [null] only, whatever the
    property. *)
Lemma get_prop_throws (v : value) (k : string) (e : exn) :
  get_prop v k = inl e ->
  (v = VUndefined \/ v = VNull) /\ forall k', get_prop v k' = inl TypeError.
Proof.
  destruct v; unfold get_prop; intros E; try (split; [tauto | reflexivity]);
    try discriminate E.
  - destruct (String.eqb k "length"); [discriminate E|].
    destruct (array_index k); discriminate E.
  - destruct (String.eqb k "length"); [discriminate E|].
    destruct (array_index k); discriminate E.
Qed.

(** What decides the test on a payload, in the terms the handlers use. *)
Lemma new_image_payload_false (data : value) :
  new_image_payload data = false ->
  get_prop data "message" = inl TypeError
  \/ (exists message, get_prop data "message" = inr message
                      /\ strict_eq_string message "New image" = false)
  \/ (exists url, get_prop data "message" = inr (VStr "New image")
                  /\ get_prop data "url" = inr url /\ truthy url = false).
Proof.
  unfold new_image_payload.
  destruct (get_prop data "message") as [e | message] eqn:Em.
  - intros _. left.
    pose proof (get_prop_throws _ _ _ Em) as [_ Ek]. rewrite Ek in Em. congruence.
  - destruct (strict_eq_string message "New image") eqn:Es; cbn.
    + apply strict_eq_string_true in Es; subst message.
      destruct (get_prop data "url") as [e | url] eqn:Eu.
      * apply get_prop_throws in Eu as [_ Eu]. rewrite Eu in Em. discriminate Em.
      * intros Et. right; right. eauto.
    + intros _. right; left. eauto.
Qed.

Section SocketHandlers.
Context `{Platform}.

(** [src/App.tsx]: a decoded payload that fails the test changes nothing
    but, when reading it throws, the console. *)
Lemma App_onmessage_other (h : value) (env : Env) (e_data : string)
      (data : value) (st : App.State) :
  JSON_parse e_data = Some data ->
  new_image_payload data = false ->
  exists log,
    App.onmessage h env e_data st
    = (inr tt, App.with_console (App.console st ++ log) st).
Proof.
  intros Hp Hn. unfold App.onmessage, App.parse. rewrite Hp.
  destruct (new_image_payload_false _ Hn) as [E | [(m & E & Em) | (u & E & Eu & Et)]];
    run; rewrite E; cbn.
  - eexists [_]. reflexivity.
  - rewrite Em. exists []. rewrite app_nil_r. now destruct st.
  - rewrite Eu; cbn. rewrite Et. exists []. rewrite app_nil_r. now destruct st.
Qed.

(** The earlier variant logs every such payload. *)
Lemma Part000_onmessage_other (env : Env) (e_data : string)
      (data : value) (st : Part000.State) :
  JSON_parse e_data = Some data ->
  new_image_payload data = false ->
  exists log,
    Part000.onmessage env e_data st
    = (inr tt, Part000.mkState (Part000.status st) (Part000.imageUri st)
                 (Part000.history st) (Part000.console st ++ log)).
Proof.
  intros Hp Hn. unfold Part000.onmessage, Part000.parse. rewrite Hp.
  destruct (new_image_payload_false _ Hn) as [E | [(m & E & Em) | (u & E & Eu & Et)]];
    run; rewrite E; cbn.
  - eexists [_]. reflexivity.
  - rewrite Em. eexists [_]. reflexivity.
  - rewrite Eu; cbn. rewrite Et. eexists [_]. reflexivity.
Qed.

End SocketHandlers.

(** ** Payloads that are not acted on *)

(** C2: a message whose text is not JSON leaves the history list and the
    current image as they were, in both variants: the handler completes
    normally, and all it does is log the text. *)
Theorem malformed_payload_ignored `{Platform} (h : value) (env : Env)
        (e_data : string) (st : App.State) (st0 : Part000.State) :
  JSON_parse e_data = None ->
  let st' := exec (App.onmessage h env e_data) st in
  let st0' := exec (Part000.onmessage env e_data) st0 in
  outcome (App.onmessage h env e_data) st = inr tt
  /\ App.history st' = App.history st
  /\ App.imageUri st' = App.imageUri st
  /\ App_unchanged st st'
  /\ App.console st'
     = (App.console st ++ [("⚠️ Invalid WS payload:", LStr e_data)])%list
  /\ outcome (Part000.onmessage env e_data) st0 = inr tt
  /\ Part000.history st0' = Part000.history st0
  /\ Part000.imageUri st0' = Part000.imageUri st0
  /\ Part000_unchanged st0 st0'
  /\ Part000.console st0'
     = (Part000.console st0 ++ [("⚠️ Invalid WS payload:", LStr e_data)])%list.
Proof.
  intros Hp. unfold App.onmessage, Part000.onmessage, App.parse, Part000.parse.
  rewrite Hp. run. unfold App_unchanged, Part000_unchanged. cbn. tauto.
Qed.

Lemma malformed_payload_ignored_witness :
  let h := VArr [record "https://x/old.png" "09:00"] in
  let st := App.with_history h (App.initial ∅) in
  let text := "{message: New image" in
  @JSON_parse reference text = None
  /\ App.history (exec (@App.onmessage reference h fair_env text) st) = h
  /\ Part000.history (exec (@Part000.onmessage reference fair_env text) Part000.initial)
     = [].
Proof.
  cbv zeta. split; [ vm_compute; reflexivity | ].
  pose proof (@malformed_payload_ignored reference
                (VArr [record "https://x/old.png" "09:00"]) fair_env
                "{message: New image"
                (App.with_history (VArr [record "https://x/old.png" "09:00"])
                                  (App.initial ∅))
                Part000.initial ltac:(vm_compute; reflexivity)) as W.
  cbv zeta in W. destruct W as (_ & W1 & _ & _ & _ & _ & W2 & _). split.
  - exact W1.
  - exact W2.
Defined.



(** C9: a payload whose [message] is 'New image' and whose [url] is absent
    ([undefined]), empty or otherwise falsy is ignored like any payload of
    another shape: no record, no change of the current image or of the
    status.  The test on [url] is [truthy], not a test of its type. *)
Theorem falsy_url_ignored `{Platform} (h : value) (env : Env)
        (e_data : string) (data url : value) (st : App.State) (st0 : Part000.State) :
  JSON_parse e_data = Some data ->
  get_prop data "message" = inr (VStr "New image") ->
  get_prop data "url" = inr url ->
  truthy url = false ->
  let st' := exec (App.onmessage h env e_data) st in
  let st0' := exec (Part000.onmessage env e_data) st0 in
  new_image_payload data = false
  /\ outcome (App.onmessage h env e_data) st = inr tt
  /\ st' = st
  /\ outcome (Part000.onmessage env e_data) st0 = inr tt
  /\ Part000.history st0' = Part000.history st0
  /\ Part000.imageUri st0' = Part000.imageUri st0
  /\ Part000.status st0' = Part000.status st0
  /\ Part000.console st0'
     = (Part000.console st0 ++ [("ℹ️ WS message:", LVal data)])%list.
Proof.
  intros Hp Hm Hu Ht.
  split. { unfold new_image_payload. rewrite Hm, Hu, Ht. reflexivity. }
  unfold App.onmessage, Part000.onmessage, App.parse, Part000.parse.
  rewrite Hp. run. rewrite Hm. cbn. rewrite Hu. cbn. rewrite Ht. cbn. tauto.
Qed.

Lemma falsy_url_ignored_witness :
  let st := App.with_history (VArr [record "https://x/old.png" "09:00"])
                             (App.initial ∅) in
  truthy (VStr "") = false
  /\ exec (@App.onmessage reference (App.history st) fair_env (new_image_text "")) st
     = st.
Proof.
  cbv zeta. split; [ reflexivity | ].
  pose proof (@falsy_url_ignored reference
                (VArr [record "https://x/old.png" "09:00"]) fair_env
                (new_image_text "")
                (VObj [("message", VStr "New image"); ("url", VStr "")]) (VStr "")
                (App.with_history (VArr [record "https://x/old.png" "09:00"])
                                  (App.initial ∅))
                Part000.initial
                ltac:(vm_compute; reflexivity) ltac:(reflexivity)
                ltac:(reflexivity) ltac:(reflexivity)) as W.
  cbv zeta in W. destruct W as (_ & _ & W & _). exact W.
Defined.

(** ** The pieces of [src/App.tsx] *)

(** Every path through the load effect: the read, the stored text, its
    decoding, then the reads that lead to the first record's [url]. *)
Ltac load_cases env :=
  unfold App.load, App.AsyncStorage_getItem, App.parse;
  destruct (getItem_ok env); [| reflexivity];
  run; destruct (App.stored_text _) as [text|]; [| reflexivity];
  destruct (JSON_parse text) as [parsed|]; [| reflexivity];
  cbn; destruct (get_prop parsed "length") as [e | len]; [reflexivity|];
  cbn; destruct (gt_zero len); [| reflexivity];
  destruct (get_prop parsed "0") as [e | first]; [reflexivity|];
  cbn; destruct (get_prop first "url") as [e | url]; [reflexivity|];
  cbn; unfold App.updateMainImage, App.getDynamicHeight;
  destruct (getSize env url); reflexivity.

Ltac refresh_cases env st :=
  unfold App.onRefresh, App.AsyncStorage_getItem, App.parse;
  destruct (getItem_ok env); [| reflexivity];
  run; destruct (App.stored_text _) as [text|];
  [ destruct (JSON_parse text) as [parsed|]; [| reflexivity] | ];
  cbn; destruct (App.wsRef st) as [[]|]; reflexivity.

Section AppPieces.
Context `{Platform}.

(** [getDynamicHeight] always resolves, by cases on the probe. *)
Lemma getDynamicHeight_outcome (env : Env) (uri : value) (st : App.State) :
  outcome (App.getDynamicHeight env uri) st
  = inr match getSize env uri with
        | Size width height =>
            PrimFloat.mul App.screenWidth (PrimFloat.div height width)
        | NoSize _ => 250%float
        end.
Proof. unfold App.getDynamicHeight. destruct (getSize env uri); reflexivity. Qed.

(** [updateMainImage] completes and writes the two image hooks (and, when
    the probe fails, the console). *)
Lemma updateMainImage_spec (env : Env) (uri : value) (st : App.State) :
  exists log,
    App.updateMainImage env uri st
    = (inr tt,
       App.with_imageHeight
         match getSize env uri with
         | Size width height =>
             PrimFloat.mul App.screenWidth (PrimFloat.div height width)
         | NoSize _ => 250%float
         end
         (App.with_imageUri uri (App.with_console (App.console st ++ log) st))).
Proof.
  unfold App.updateMainImage, App.getDynamicHeight.
  destruct (getSize env uri) as [w h | err]; run.
  - exists []. rewrite app_nil_r. reflexivity.
  - eexists [_]. reflexivity.
Qed.

(** [saveHistory] completes whether or not the write is accepted. *)
Lemma saveHistory_spec (env : Env) (newHistory : value) (st : App.State) :
  App.saveHistory env newHistory st
  = (inr tt,
     if setItem_ok env
     then App.with_storage
            (<[App.STORAGE_KEY := JSON_stringify newHistory]> (App.storage st)) st
     else App.with_console
            (App.console st ++ [("⚠️ Error saving history:", LErr StorageError)]) st).
Proof.
  unfold App.saveHistory, App.AsyncStorage_setItem.
  destruct (setItem_ok env); reflexivity.
Qed.

(** A payload that passes the test, received by a handler that saw a list
    it can spread. *)
Lemma App_onmessage_new_image (h : value) (env : Env) (e_data : string)
      (data url : value) (l : list value) (st : App.State) :
  JSON_parse e_data = Some data ->
  get_prop data "message" = inr (VStr "New image") ->
  get_prop data "url" = inr url ->
  truthy url = true ->
  spread h = inr l ->
  let updatedHistory := VArr (VObj [("url", url); ("time", VStr (now env))] :: l) in
  App.onmessage h env e_data st
  = (inr tt,
     App.with_status "Object detected — image received"
       (exec (App.saveHistory env updatedHistory)
          (App.with_history updatedHistory
             (exec (App.updateMainImage env url) st)))).
Proof.
  intros Hp Hm Hu Ht Hs. unfold App.onmessage, App.parse. rewrite Hp.
  unfold try_catch, bind at 1 2, lift, ret. cbn. rewrite Hm. cbn.
  unfold bind at 1. rewrite Hu. cbn. rewrite Ht.
  destruct (updateMainImage_spec env url st) as [log Eu].
  unfold bind at 1. unfold exec. rewrite Eu. cbn.
  unfold bind at 1. rewrite Hs. cbn.
  unfold bind at 1. cbn. unfold bind. rewrite saveHistory_spec. cbn.
  reflexivity.
Qed.

(** What the load effect and the refresh gesture make of the store: the
    decoded text under the key, when the read resolves, the text is not
    empty and it decodes. *)
Lemma load_history (env : Env) (st : App.State) :
  App.history (exec (App.load env) st)
  = match (if getItem_ok env then App.stored_text (App.storage st !! App.STORAGE_KEY)
           else None) with
    | Some text => match JSON_parse text with
                   | Some parsed => parsed
                   | None => App.history st
                   end
    | None => App.history st
    end.
Proof.
  load_cases env.
Qed.

Lemma load_storage (env : Env) (st : App.State) :
  App.storage (exec (App.load env) st) = App.storage st.
Proof.
  load_cases env.
Qed.

Lemma load_outcome (env : Env) (st : App.State) :
  outcome (App.load env) st = inr tt.
Proof.
  load_cases env.
Qed.

Lemma onRefresh_history (env : Env) (st : App.State) :
  App.history (exec (App.onRefresh env) st)
  = match (if getItem_ok env then App.stored_text (App.storage st !! App.STORAGE_KEY)
           else None) with
    | Some text => match JSON_parse text with
                   | Some parsed => parsed
                   | None => App.history st
                   end
    | None => App.history st
    end.
Proof.
  refresh_cases env st.
Qed.

Lemma onRefresh_storage (env : Env) (st : App.State) :
  App.storage (exec (App.onRefresh env) st) = App.storage st.
Proof.
  refresh_cases env st.
Qed.

(** The store after a new image has been handled. *)
Lemma onmessage_store (env : Env) (e_data : string)
      (data url : value) (l : list value) (st : App.State) :
  JSON_parse e_data = Some data ->
  get_prop data "message" = inr (VStr "New image") ->
  get_prop data "url" = inr url ->
  truthy url = true ->
  App.history st = VArr l ->
  App.storage (exec (App.onmessage (App.history st) env e_data) st)
  = (if setItem_ok env
     then <[App.STORAGE_KEY :=
              JSON_stringify (VArr (VObj [("url", url); ("time", VStr (now env))] :: l))]>
            (App.storage st)
     else App.storage st).
Proof.
  intros Hp Hm Hu Ht Hh.
  assert (Hs : spread (App.history st) = inr l) by (rewrite Hh; reflexivity).
  pose proof (App_onmessage_new_image (App.history st) env e_data data url l st
                Hp Hm Hu Ht Hs) as E. cbv zeta in E.
  destruct (updateMainImage_spec env url st) as [log Eu].
  unfold exec. rewrite E. unfold exec. rewrite saveHistory_spec, Eu.
  destruct (setItem_ok env); reflexivity.
Qed.

(** The load effect when no list comes out of the store. *)
Lemma load_rejected_read (env : Env) (st : App.State) :
  getItem_ok env = false ->
  App.load env st
  = (inr tt,
     App.with_console
       (App.console st ++ [("⚠️ Error loading history:", LErr StorageError)]) st).
Proof.
  intros Hr. unfold App.load, App.AsyncStorage_getItem. rewrite Hr. reflexivity.
Qed.

Lemma load_nothing_stored (env : Env) (st : App.State) :
  getItem_ok env = true ->
  App.stored_text (App.storage st !! App.STORAGE_KEY) = None ->
  App.load env st = (inr tt, st).
Proof.
  intros Hr Hs. unfold App.load, App.AsyncStorage_getItem. rewrite Hr.
  run. rewrite Hs. reflexivity.
Qed.

Lemma load_undecodable (env : Env) (text : string) (st : App.State) :
  getItem_ok env = true ->
  App.stored_text (App.storage st !! App.STORAGE_KEY) = Some text ->
  JSON_parse text = None ->
  App.load env st
  = (inr tt,
     App.with_console
       (App.console st ++ [("⚠️ Error loading history:", LErr SyntaxError)]) st).
Proof.
  intros Hr Hs Hp. unfold App.load, App.AsyncStorage_getItem, App.parse. rewrite Hr.
  run. rewrite Hs, Hp. reflexivity.
Qed.

Lemma stored_text_nonempty (text : string) :
  text <> "" -> App.stored_text (Some text) = Some text.
Proof.
  intros Hne. unfold App.stored_text.
  destruct (String.eqb_spec text ""); [contradiction | reflexivity].
Qed.

End AppPieces.

(** ** A new image *)

(** C1, as amended: for a payload whose [message] is 'New image' and whose
    [url] is truthy, received by the handler of the render that shows the
    current list (an array), the record [{url, time}] becomes the first
    element of the history list, in front of the elements that were there;
    the current image becomes that [url] and the status the detected string.
    [src/App.tsx] then writes the whole list to the store, which holds it
    when the write is accepted and is left as it was when it is rejected;
    the earlier variant has no store. *)
Theorem new_image_prepends_record `{Platform} (env : Env) (e_data : string)
        (data url : value) (l : list value) (st : App.State) (st0 : Part000.State) :
  JSON_parse e_data = Some data ->
  get_prop data "message" = inr (VStr "New image") ->
  get_prop data "url" = inr url ->
  truthy url = true ->
  App.history st = VArr l ->
  let r := VObj [("url", url); ("time", VStr (now env))] in
  let st' := exec (App.onmessage (App.history st) env e_data) st in
  let st0' := exec (Part000.onmessage env e_data) st0 in
  outcome (App.onmessage (App.history st) env e_data) st = inr tt
  /\ App.history st' = VArr (r :: l)
  /\ App.imageUri st' = url
  /\ App.status st' = "Object detected — image received"
  /\ App.storage st'
     = (if setItem_ok env
        then <[App.STORAGE_KEY := JSON_stringify (VArr (r :: l))]> (App.storage st)
        else App.storage st)
  /\ outcome (Part000.onmessage env e_data) st0 = inr tt
  /\ Part000.history st0' = r :: Part000.history st0
  /\ Part000.imageUri st0' = url
  /\ Part000.status st0' = "Object detected — image received".
Proof.
  intros Hp Hm Hu Ht Hh r st' st0'.
  assert (Hs : spread (App.history st) = inr l) by (rewrite Hh; reflexivity).
  pose proof (App_onmessage_new_image (App.history st) env e_data data url l st
                Hp Hm Hu Ht Hs) as E. cbv zeta in E.
  destruct (updateMainImage_spec env url st) as [log Eu].
  subst st'. unfold exec, outcome. rewrite E. unfold exec.
  rewrite saveHistory_spec, Eu. cbn.
  repeat split; try (destruct (setItem_ok env); reflexivity).
  all: subst st0'; unfold Part000.onmessage, Part000.parse, exec, outcome;
    rewrite Hp; run; rewrite Hm; cbn; rewrite Hu; cbn; rewrite Ht; reflexivity.
Qed.

Lemma new_image_prepends_record_witness :
  let old := record "https://x/old.png" "09:00" in
  let st := App.with_history (VArr [old]) (App.initial ∅) in
  let st' := exec (@App.onmessage reference (App.history st) fair_env
                     (new_image_text "https://x/a.png")) st in
  App.history st' = VArr [record "https://x/a.png" "10:00"; old]
  /\ App.imageUri st' = VStr "https://x/a.png"
  /\ App.status st' = "Object detected — image received".
Proof.
  cbv zeta.
  pose proof (@new_image_prepends_record reference fair_env
                (new_image_text "https://x/a.png")
                (VObj [("message", VStr "New image"); ("url", VStr "https://x/a.png")])
                (VStr "https://x/a.png") [record "https://x/old.png" "09:00"]
                (App.with_history (VArr [record "https://x/old.png" "09:00"])
                                  (App.initial ∅))
                Part000.initial
                ltac:(vm_compute; reflexivity) ltac:(reflexivity) ltac:(reflexivity)
                ltac:(reflexivity) ltac:(reflexivity)) as W.
  cbv zeta in W. destruct W as (_ & W1 & W2 & W3 & _).
  split; [exact W1 | split; [exact W2 | exact W3]].
Defined.

(** C1 as stated fails on two inputs.  A payload with [message] 'New image'
    and the empty string as [url] is dropped by both variants; and when the
    store rejects the write, the new list is not persisted. *)
Lemma new_image_not_always_recorded :
  let st := App.initial ∅ in
  (let text := new_image_text "" in
   @JSON_parse reference text
   = Some (VObj [("message", VStr "New image"); ("url", VStr "")])
   /\ exec (@App.onmessage reference (App.history st) fair_env text) st = st
   /\ Part000.history (exec (@Part000.onmessage reference fair_env text) Part000.initial)
      = [])
  /\ (let text := new_image_text "https://x/a.png" in
      let st' := exec (@App.onmessage reference (App.history st) failing_env text) st in
      App.history st' = VArr [record "https://x/a.png" "10:00"]
      /\ App.storage st' = ∅).
Proof. vm_compute. repeat split. Qed.

(** C10: when the store rejects the write, the rejection is caught and
    logged by [saveHistory]; the list in memory keeps the new record in
    front, the status is the detected string, and nothing is rolled back. *)
Theorem persist_failure_keeps_record `{Platform} (env : Env) (e_data : string)
        (data url : value) (l : list value) (st : App.State) :
  JSON_parse e_data = Some data ->
  get_prop data "message" = inr (VStr "New image") ->
  get_prop data "url" = inr url ->
  truthy url = true ->
  App.history st = VArr l ->
  setItem_ok env = false ->
  let r := VObj [("url", url); ("time", VStr (now env))] in
  let st' := exec (App.onmessage (App.history st) env e_data) st in
  outcome (App.onmessage (App.history st) env e_data) st = inr tt
  /\ App.history st' = VArr (r :: l)
  /\ App.status st' = "Object detected — image received"
  /\ App.imageUri st' = url
  /\ App.storage st' = App.storage st
  /\ last (App.console st') = Some ("⚠️ Error saving history:", LErr StorageError).
Proof.
  intros Hp Hm Hu Ht Hh Hw r st'.
  assert (Hs : spread (App.history st) = inr l) by (rewrite Hh; reflexivity).
  pose proof (App_onmessage_new_image (App.history st) env e_data data url l st
                Hp Hm Hu Ht Hs) as E. cbv zeta in E.
  destruct (updateMainImage_spec env url st) as [log Eu].
  subst st'. unfold exec, outcome. rewrite E. unfold exec.
  rewrite saveHistory_spec, Eu, Hw. cbn.
  repeat split. apply last_snoc.
Qed.

Lemma persist_failure_keeps_record_witness :
  let st := App.initial ∅ in
  let st' := exec (@App.onmessage reference (App.history st) failing_env
                     (new_image_text "https://x/a.png")) st in
  setItem_ok failing_env = false
  /\ App.history st' = VArr [record "https://x/a.png" "10:00"]
  /\ App.status st' = "Object detected — image received"
  /\ App.storage st' = ∅.
Proof.
  cbv zeta. split; [reflexivity|].
  pose proof (@persist_failure_keeps_record reference failing_env
                (new_image_text "https://x/a.png")
                (VObj [("message", VStr "New image"); ("url", VStr "https://x/a.png")])
                (VStr "https://x/a.png") [] (App.initial ∅)
                ltac:(vm_compute; reflexivity) ltac:(reflexivity) ltac:(reflexivity)
                ltac:(reflexivity) ltac:(reflexivity) ltac:(reflexivity)) as W.
  cbv zeta in W. destruct W as (_ & W1 & W2 & _ & W3 & _).
  split; [exact W1 | split; [exact W2 | exact W3]].
Defined.

(** ** The store *)

(** After a new image has been recorded and the write accepted, what a
    load or a refresh makes of a store with that content. *)
Lemma onmessage_then_load `{Platform} (env env' : Env) (e_data : string)
      (data url : value) (l : list value) (st st2 : App.State) :
  JSON_parse e_data = Some data ->
  get_prop data "message" = inr (VStr "New image") ->
  get_prop data "url" = inr url ->
  truthy url = true ->
  App.history st = VArr l ->
  setItem_ok env = true ->
  let r := VObj [("url", url); ("time", VStr (now env))] in
  let st1 := exec (App.onmessage (App.history st) env e_data) st in
  JSON_stringify (VArr (r :: l)) <> "" ->
  JSON_parse (JSON_stringify (VArr (r :: l))) = Some (VArr (r :: l)) ->
  getItem_ok env' = true ->
  App.storage st2 = App.storage st1 ->
  App.storage st1 !! App.STORAGE_KEY = Some (JSON_stringify (VArr (r :: l)))
  /\ App.history (exec (App.load env') st2) = VArr (r :: l)
  /\ App.history (exec (App.onRefresh env') st2) = VArr (r :: l).
Proof.
  intros Hp Hm Hu Ht Hh Hw r st1 Hne Hrt Hr Hst.
  pose proof (onmessage_store env e_data data url l st Hp Hm Hu Ht Hh)
    as E. fold r in E. fold st1 in E. rewrite Hw in E.
  assert (Hk : App.storage st2 !! App.STORAGE_KEY
               = Some (JSON_stringify (VArr (r :: l)))).
  { rewrite Hst, E. apply lookup_insert_eq. }
  split. { rewrite <- Hst. exact Hk. }
  rewrite load_history, onRefresh_history, Hr, Hk. unfold App.stored_text.
  destruct (String.eqb_spec (JSON_stringify (VArr (r :: l))) "") as [E0|_];
    [contradiction|].
  rewrite Hrt. auto.
Qed.

(** C5: the load effect at startup.  A stored text that decodes becomes the
    history list.  When nothing is stored, or the text is empty, or the read
    is rejected, or the text does not decode, the list stays the empty list
    it starts as; a rejected read and a text that does not decode are
    logged, and the effect completes normally in every case. *)
Theorem load_at_startup `{Platform} (env : Env) (store : gmap string string) :
  let st := App.initial store in
  let st' := exec (App.load env) st in
  outcome (App.load env) st = inr tt
  /\ (forall text parsed,
         getItem_ok env = true ->
         store !! App.STORAGE_KEY = Some text -> text <> "" ->
         JSON_parse text = Some parsed ->
         App.history st' = parsed)
  /\ (getItem_ok env = true ->
      store !! App.STORAGE_KEY = None \/ store !! App.STORAGE_KEY = Some "" ->
      App.history st' = VArr [] /\ App.console st' = [])
  /\ (getItem_ok env = false ->
      App.history st' = VArr []
      /\ App.console st' = [("⚠️ Error loading history:", LErr StorageError)])
  /\ (forall text,
         getItem_ok env = true ->
         store !! App.STORAGE_KEY = Some text -> text <> "" ->
         JSON_parse text = None ->
         App.history st' = VArr []
         /\ App.console st' = [("⚠️ Error loading history:", LErr SyntaxError)]).
Proof.
  intros st st'. subst st'. split; [apply load_outcome|].
  split; [| split; [| split]].
  - intros text parsed Hr Hs Hne Hp.
    rewrite load_history, Hr. cbn. rewrite Hs, (stored_text_nonempty _ Hne), Hp.
    reflexivity.
  - intros Hr Hs. unfold exec. rewrite load_nothing_stored; [auto | exact Hr |].
    cbn. destruct Hs as [-> | ->]; reflexivity.
  - intros Hr. unfold exec. rewrite (load_rejected_read _ _ Hr). auto.
  - intros text Hr Hs Hne Hp. unfold exec.
    rewrite (load_undecodable env text); auto.
    cbn. rewrite Hs. apply stored_text_nonempty, Hne.
Qed.

Lemma load_at_startup_witness :
  let list := VArr [record "https://x/old.png" "09:00"] in
  let good : gmap string string := {[ App.STORAGE_KEY := Reference.stringify list ]} in
  let bad : gmap string string := {[ App.STORAGE_KEY := "[{url:" ]} in
  App.history (exec (@App.load reference fair_env) (App.initial good)) = list
  /\ App.history (exec (@App.load reference fair_env) (App.initial bad)) = VArr []
  /\ App.history (exec (@App.load reference failing_env) (App.initial good)) = VArr [].
Proof.
  cbv zeta.
  pose proof (@load_at_startup reference fair_env
                {[ App.STORAGE_KEY :=
                     Reference.stringify (VArr [record "https://x/old.png" "09:00"]) ]})
    as G.
  pose proof (@load_at_startup reference fair_env {[ App.STORAGE_KEY := "[{url:" ]})
    as B.
  pose proof (@load_at_startup reference failing_env
                {[ App.STORAGE_KEY :=
                     Reference.stringify (VArr [record "https://x/old.png" "09:00"]) ]})
    as F.
  cbv zeta in G, B, F.
  destruct G as (_ & G & _). destruct B as (_ & _ & _ & _ & B). destruct F as (_ & _ & _ & F & _).
  split; [| split].
  - apply (G (Reference.stringify (VArr [record "https://x/old.png" "09:00"]))).
    + reflexivity.
    + vm_compute; reflexivity.
    + intros E; vm_compute in E; discriminate E.
    + vm_compute; reflexivity.
  - apply (B "[{url:").
    + reflexivity.
    + vm_compute; reflexivity.
    + intros E; discriminate E.
    + vm_compute; reflexivity.
  - apply F. reflexivity.
Defined.

(** C8: loading again, with nothing appended in between and the store
    answering as it did the first time, leaves the history list as the first
    load left it; so does the re-read of the refresh gesture.  The clock and
    the image probe may answer differently the second time. *)
Theorem load_idempotent `{Platform} (env1 env2 : Env) (st : App.State) :
  getItem_ok env2 = getItem_ok env1 ->
  let once := exec (App.load env1) st in
  App.history (exec (App.load env2) once) = App.history once
  /\ App.history (exec (App.onRefresh env2) once) = App.history once
  /\ App.history (exec (App.onRefresh env2) (exec (App.onRefresh env1) st))
     = App.history (exec (App.onRefresh env1) st)
  /\ App.storage once = App.storage st.
Proof.
  intros Hr once.
  pose proof (load_history env1 st) as L1. fold once in L1.
  pose proof (load_storage env1 st) as S1. fold once in S1.
  pose proof (onRefresh_history env1 st) as R1.
  pose proof (onRefresh_storage env1 st) as T1.
  rewrite (load_history env2 once), (onRefresh_history env2 once),
    (onRefresh_history env2 (exec (App.onRefresh env1) st)), S1, T1, Hr.
  rewrite L1, R1.
  destruct (getItem_ok env1); [| auto].
  destruct (App.stored_text _) as [text|]; [| auto].
  destruct (JSON_parse text); auto.
Qed.

Lemma load_idempotent_witness :
  let list := VArr [record "https://x/old.png" "09:00"] in
  let store : gmap string string := {[ App.STORAGE_KEY := Reference.stringify list ]} in
  let once := exec (@App.load reference fair_env) (App.initial store) in
  App.history once = list
  /\ App.history (exec (@App.load reference fair_env) once) = App.history once.
Proof.
  cbv zeta. split; [vm_compute; reflexivity|].
  pose proof (@load_idempotent reference fair_env fair_env
                (App.initial
                   {[ App.STORAGE_KEY :=
                        Reference.stringify (VArr [record "https://x/old.png" "09:00"]) ]})
                ltac:(reflexivity)) as W.
  cbv zeta in W. destruct W as (W & _). exact W.
Defined.

(** ** The refresh gesture *)

Section Roots.
Context `{Platform}.

(** Under a root that batches the write, the handlers are the ones above. *)
Lemma load_on_batched (env : Env) : App.load_on App.batched env = App.load env.
Proof. reflexivity. Qed.

Lemma onRefresh_on_batched (env : Env) :
  App.onRefresh_on App.batched env = App.onRefresh env.
Proof. reflexivity. Qed.

(** The refresh gesture when something throws before the socket is looked
    at. *)
Lemma onRefresh_on_throws (throws : App.root) (env : Env) (st : App.State) (e : exn) :
  (getItem_ok env = false /\ e = StorageError
   \/ exists text,
        getItem_ok env = true
        /\ App.stored_text (App.storage st !! App.STORAGE_KEY) = Some text
        /\ (JSON_parse text = None /\ e = SyntaxError
            \/ exists parsed, JSON_parse text = Some parsed /\ throws parsed = Some e)) ->
  let st' := exec (App.onRefresh_on throws env) st in
  outcome (App.onRefresh_on throws env) st = inr tt
  /\ App.console st'
     = (App.console st ++ [("⚠️ Error refreshing history:", LErr e)])%list
  /\ App.sent st' = App.sent st
  /\ App.status st' = App.status st
  /\ App.storage st' = App.storage st.
Proof.
  intros Hc. cbv zeta.
  unfold App.onRefresh_on, App.setHistory_on, App.AsyncStorage_getItem, App.parse.
  destruct Hc as [[Hr ->] | (text & Hr & Hs & [[Hp ->] | (parsed & Hp & Ht)])];
    rewrite Hr; run; [tauto | |]; rewrite Hs, Hp; cbn; [tauto|].
  rewrite Ht. cbn. tauto.
Qed.

(** The refresh gesture when nothing throws before the socket is looked
    at. *)
Lemma onRefresh_on_returns (throws : App.root) (env : Env) (st : App.State) :
  getItem_ok env = true ->
  (forall text,
     App.stored_text (App.storage st !! App.STORAGE_KEY) = Some text ->
     exists parsed, JSON_parse text = Some parsed /\ throws parsed = None) ->
  let st' := exec (App.onRefresh_on throws env) st in
  outcome (App.onRefresh_on throws env) st = inr tt
  /\ App.console st' = App.console st
  /\ (App.wsRef st <> Some OPEN ->
      App.sent st' = App.sent st
      /\ App.status st' = "WebSocket not connected — cannot refresh")
  /\ (App.wsRef st = Some OPEN ->
      App.sent st'
      = (App.sent st
           ++ [JSON_stringify (VObj [("type", VStr "refresh_request")])])%list
      /\ App.status st' = "Requested latest image from server...").
Proof.
  intros Hr Hd. cbv zeta.
  unfold App.onRefresh_on, App.setHistory_on, App.AsyncStorage_getItem, App.parse.
  rewrite Hr. run.
  destruct (App.stored_text _) as [text|] eqn:Es.
  - destruct (Hd text eq_refl) as (parsed & Hp & Ht). rewrite Hp. cbn. rewrite Ht. cbn.
    destruct (App.wsRef st) as [[]|] eqn:Ew; cbn; rewrite ?Ew;
      repeat split; intros; congruence.
  - cbn. destruct (App.wsRef st) as [[]|] eqn:Ew; cbn; rewrite ?Ew;
      repeat split; intros; congruence.
Qed.

End Roots.

(** C4, as amended.  Under any root, when nothing throws before the gesture
    looks at the socket (the read resolves, a stored non-empty text decodes,
    and [setHistory] of what it decodes to returns): a socket that is absent
    or not open gets nothing sent and the status becomes the cannot-refresh
    string; an open socket gets exactly the one frame
    [{type: 'refresh_request'}] and the status says so.  When something does
    throw (a rejected read, a text that does not decode, or a [setHistory]
    out of which the error of a render comes), the error is logged, and
    nothing is sent and the status is left as it was, whatever the socket. *)
Theorem refresh_sends_or_reports `{Platform} (throws : App.root) (env : Env)
        (st : App.State) :
  let st' := exec (App.onRefresh_on throws env) st in
  let thrown (e : exn) :=
    App.console st'
    = (App.console st ++ [("⚠️ Error refreshing history:", LErr e)])%list
    /\ App.sent st' = App.sent st
    /\ App.status st' = App.status st in
  outcome (App.onRefresh_on throws env) st = inr tt
  /\ (getItem_ok env = true ->
      (forall text,
         App.stored_text (App.storage st !! App.STORAGE_KEY) = Some text ->
         exists parsed, JSON_parse text = Some parsed /\ throws parsed = None) ->
      (App.wsRef st <> Some OPEN ->
       App.sent st' = App.sent st
       /\ App.status st' = "WebSocket not connected — cannot refresh")
      /\ (App.wsRef st = Some OPEN ->
          App.sent st'
          = (App.sent st
               ++ [JSON_stringify (VObj [("type", VStr "refresh_request")])])%list
          /\ App.status st' = "Requested latest image from server..."))
  /\ (getItem_ok env = false -> thrown StorageError)
  /\ (forall text,
        getItem_ok env = true ->
        App.stored_text (App.storage st !! App.STORAGE_KEY) = Some text ->
        JSON_parse text = None ->
        thrown SyntaxError)
  /\ (forall text parsed e,
        getItem_ok env = true ->
        App.stored_text (App.storage st !! App.STORAGE_KEY) = Some text ->
        JSON_parse text = Some parsed ->
        throws parsed = Some e ->
        thrown e).
Proof.
  cbv zeta. split; [| split; [| split; [| split]]].
  - destruct (getItem_ok env) eqn:Hr.
    + destruct (App.stored_text (App.storage st !! App.STORAGE_KEY)) as [text|] eqn:Es.
      * destruct (JSON_parse text) as [parsed|] eqn:Hp.
        -- destruct (throws parsed) as [e|] eqn:Ht.
           ++ apply (onRefresh_on_throws throws env st e). right. exists text. eauto 8.
           ++ apply onRefresh_on_returns; [exact Hr|].
              intros t Et. rewrite Es in Et. inversion Et; subst t. eauto.
        -- apply (onRefresh_on_throws throws env st SyntaxError). right. exists text. eauto 8.
      * apply onRefresh_on_returns; [exact Hr|]. intros t Et. rewrite Es in Et. discriminate Et.
    + apply (onRefresh_on_throws throws env st StorageError). auto.
  - intros Hr Hd. apply (onRefresh_on_returns throws env st Hr Hd).
  - intros Hr.
    destruct (onRefresh_on_throws throws env st StorageError) as (_ & E1 & E2 & E3 & _); auto.
  - intros text Hr Hs Hp.
    destruct (onRefresh_on_throws throws env st SyntaxError) as (_ & E1 & E2 & E3 & _);
      [right; exists text; auto | auto].
  - intros text parsed e Hr Hs Hp Ht.
    destruct (onRefresh_on_throws throws env st e) as (_ & E1 & E2 & E3 & _);
      [right; exists text; eauto 8 | auto].
Qed.

Lemma refresh_sends_or_reports_witness :
  let closed := App.with_wsRef (Some CLOSED) (App.initial ∅) in
  let open := App.with_wsRef (Some OPEN) (App.initial ∅) in
  let null : gmap string string := {[ App.STORAGE_KEY := "null" ]} in
  let legacy : App.root :=
    fun x => match x with VNull => Some TypeError | _ => None end in
  (App.sent (exec (@App.onRefresh reference fair_env) closed) = []
   /\ App.status (exec (@App.onRefresh reference fair_env) closed)
      = "WebSocket not connected — cannot refresh")
  /\ App.sent (exec (@App.onRefresh reference fair_env) open)
     = ["{" +:+ field "type" "refresh_request" +:+ "}"]
  /\ App.sent (exec (@App.onRefresh_on reference legacy fair_env)
                    (App.with_wsRef (Some OPEN) (App.initial null))) = [].
Proof.
  cbv zeta.
  pose proof (@refresh_sends_or_reports reference App.batched fair_env
                (App.with_wsRef (Some CLOSED) (App.initial ∅))) as C.
  pose proof (@refresh_sends_or_reports reference App.batched fair_env
                (App.with_wsRef (Some OPEN) (App.initial ∅))) as O.
  pose proof (@refresh_sends_or_reports reference
                (fun x => match x with VNull => Some TypeError | _ => None end)
                fair_env
                (App.with_wsRef (Some OPEN) (App.initial {[ App.STORAGE_KEY := "null" ]})))
    as L.
  cbv zeta in C, O, L.
  destruct C as (_ & C & _). destruct O as (_ & O & _). destruct L as (_ & _ & _ & _ & L).
  assert (Hd : forall text,
             App.stored_text ((∅ : gmap string string) !! App.STORAGE_KEY) = Some text ->
             exists parsed, @JSON_parse reference text = Some parsed
                            /\ App.batched parsed = None)
    by (intros text E; vm_compute in E; discriminate E).
  split; [| split].
  - apply (C eq_refl Hd). intros E; discriminate E.
  - destruct (O eq_refl Hd) as [_ O']. destruct (O' eq_refl) as [O1 _]. exact O1.
  - destruct (L "null" VNull TypeError eq_refl ltac:(vm_compute; reflexivity)
                ltac:(vm_compute; reflexivity) eq_refl) as (_ & L1 & _).
    exact L1.
Defined.

(** C4 as stated fails when the re-read throws: with a stored text that
    does not decode, or a rejected read, the handler goes to its [catch]
    before it looks at the socket.  A closed socket then leaves the status as
    it was, and an open one gets no frame. *)
Lemma refresh_skipped_when_reread_throws :
  let bad : gmap string string := {[ App.STORAGE_KEY := "[{url:" ]} in
  let closed := App.with_wsRef (Some CLOSED) (App.initial bad) in
  let open := App.with_wsRef (Some OPEN) (App.initial ∅) in
  (App.status (exec (@App.onRefresh reference fair_env) closed) = "Disconnected"
   /\ App.console (exec (@App.onRefresh reference fair_env) closed)
      = [("⚠️ Error refreshing history:", LErr SyntaxError)])
  /\ (App.sent (exec (@App.onRefresh reference failing_env) open) = []
      /\ App.status (exec (@App.onRefresh reference failing_env) open) = "Disconnected").
Proof. vm_compute. repeat split. Qed.

(** ** Image heights *)

(** C7: when the probe of an image fails, the height computed for it is 250,
    for the main image ([getDynamicHeight], stored by [updateMainImage]) and
    for a history row alike, and nothing is thrown; when the probe succeeds,
    the height is the display width times (height / width) of the image. *)
Theorem display_height `{Platform} (env : Env) (uri item : value)
        (rowWidth : float) (st : App.State) :
  get_prop item "url" = inr uri ->
  (forall error, getSize env uri = NoSize error ->
     outcome (App.getDynamicHeight env uri) st = inr 250%float
     /\ outcome (App.updateMainImage env uri) st = inr tt
     /\ App.imageHeight (exec (App.updateMainImage env uri) st) = 250%float
     /\ App.HistoryImage env item rowWidth = inr 250%float)
  /\ (forall width height, getSize env uri = Size width height ->
     let scaled := PrimFloat.mul App.screenWidth (PrimFloat.div height width) in
     outcome (App.getDynamicHeight env uri) st = inr scaled
     /\ App.imageHeight (exec (App.updateMainImage env uri) st) = scaled
     /\ App.HistoryImage env item rowWidth
        = inr (PrimFloat.mul rowWidth (PrimFloat.div height width))).
Proof.
  intros Hi. unfold App.HistoryImage. rewrite Hi.
  pose proof (getDynamicHeight_outcome env uri st) as G.
  destruct (updateMainImage_spec env uri st) as [log Eu].
  assert (O : outcome (App.updateMainImage env uri) st = inr tt)
    by (unfold outcome; rewrite Eu; reflexivity).
  assert (I : App.imageHeight (exec (App.updateMainImage env uri) st)
              = match getSize env uri with
                | Size width height =>
                    PrimFloat.mul App.screenWidth (PrimFloat.div height width)
                | NoSize _ => 250%float
                end)
    by (unfold exec; rewrite Eu; reflexivity).
  rewrite G, O, I. split.
  - intros error ->. auto.
  - intros width height ->. auto.
Qed.

Lemma display_height_witness :
  let uri := VStr "https://x/a.png" in
  let item := record "https://x/a.png" "10:00" in
  @App.screenWidth reference = 360%float
  /\ App.imageHeight (exec (@App.updateMainImage reference failing_env uri) (App.initial ∅))
     = 250%float
  /\ App.imageHeight (exec (@App.updateMainImage reference fair_env uri) (App.initial ∅))
     = 270%float
  /\ App.HistoryImage fair_env item 360 = inr 270%float.
Proof.
  cbv zeta. split; [reflexivity|].
  pose proof (@display_height reference failing_env (VStr "https://x/a.png")
                (record "https://x/a.png" "10:00") 360 (App.initial ∅)
                ltac:(reflexivity)) as F.
  pose proof (@display_height reference fair_env (VStr "https://x/a.png")
                (record "https://x/a.png" "10:00") 360 (App.initial ∅)
                ltac:(reflexivity)) as S.
  destruct F as (F & _). destruct S as (_ & S).
  destruct (F "unreachable" eq_refl) as (_ & _ & F1 & _).
  destruct (S 800%float 600%float eq_refl) as (_ & S1 & S2).
  split; [exact F1 | split; [exact S1 | exact S2]].
Defined.

(** ** Two messages, one handler *)

Section Parts.
Context `{Platform}.

(** [ws.onmessage] is its three parts, run one after the other. *)
Lemma onmessage_in_parts (h : value) (env : Env) (e_data : string) (st : App.State) :
  App.onmessage h env e_data st
  = match App.onmessage_arrives e_data st with
    | (inr (Some url), st1) =>
        match App.onmessage_resumes h env e_data url st1 with
        | (inr (Some updatedHistory), st2) =>
            App.onmessage_settles env updatedHistory st2
        | (_, st2) => (inr tt, st2)
        end
    | (_, st1) => (inr tt, st1)
    end.
Proof.
  unfold App.onmessage, App.onmessage_arrives, App.onmessage_resumes,
    App.onmessage_settles, App.parse.
  destruct (JSON_parse e_data) as [data|]; [| reflexivity].
  run. destruct (get_prop data "message") as [e | message]; [reflexivity|].
  cbn. destruct (strict_eq_string message "New image"); [| reflexivity].
  destruct (get_prop data "url") as [e | url]; [reflexivity|].
  cbn. destruct (truthy url); [| reflexivity].
  cbn. destruct (updateMainImage_spec env url st) as [log ->].
  destruct (spread h) as [e | rest]; [reflexivity|].
  rewrite !saveHistory_spec. destruct (setItem_ok env); reflexivity.
Qed.

(** On arrival a qualifying message changes nothing: the run awaits the
    probe of its [url]. *)
Lemma onmessage_arrives_new_image (e_data : string) (data url : value)
      (st : App.State) :
  JSON_parse e_data = Some data ->
  get_prop data "message" = inr (VStr "New image") ->
  get_prop data "url" = inr url ->
  truthy url = true ->
  App.onmessage_arrives e_data st = (inr (Some url), st).
Proof.
  intros Hp Hm Hu Ht. unfold App.onmessage_arrives, App.parse. rewrite Hp.
  run. rewrite Hm. cbn. rewrite Hu. cbn. rewrite Ht. reflexivity.
Qed.

(** What the two later parts write. *)
Lemma updateMainImage_frame (env : Env) (uri : value) (st : App.State) :
  let st' := exec (App.updateMainImage env uri) st in
  App.history st' = App.history st
  /\ App.imageUri st' = uri
  /\ App.status st' = App.status st
  /\ App.storage st' = App.storage st.
Proof.
  cbv zeta. destruct (updateMainImage_spec env uri st) as [log E].
  unfold exec. rewrite E. cbn. auto.
Qed.

Lemma onmessage_resumes_spec (l : list value) (env : Env) (e_data : string)
      (url : value) (st : App.State) :
  let updatedHistory := VArr (VObj [("url", url); ("time", VStr (now env))] :: l) in
  App.onmessage_resumes (VArr l) env e_data url st
  = (inr (Some updatedHistory),
     App.with_status "Object detected — image received"
       (App.with_history updatedHistory (exec (App.updateMainImage env url) st))).
Proof.
  cbv zeta. unfold App.onmessage_resumes, exec. unfold try_catch, bind at 1.
  destruct (updateMainImage_spec env url st) as [log ->]. reflexivity.
Qed.

Lemma onmessage_settles_spec (env : Env) (updatedHistory : value) (st : App.State) :
  exec (App.onmessage_settles env updatedHistory) st
  = (if setItem_ok env
     then App.with_storage
            (<[App.STORAGE_KEY := JSON_stringify updatedHistory]> (App.storage st)) st
     else App.with_console
            (App.console st ++ [("⚠️ Error saving history:", LErr StorageError)]) st).
Proof.
  unfold exec, App.onmessage_settles. rewrite saveHistory_spec.
  destruct (setItem_ok env); reflexivity.
Qed.

End Parts.

(** X1: two qualifying messages that reach the same installed [ws.onmessage]
    of [src/App.tsx] (the second arrives before the socket effect has run
    again, the first run being suspended at its [await] of the image probe,
    for one).  On arrival neither changes anything.  Each run, when its probe
    has answered, prepends its record to the list that the handler closed
    over, so in every order of the parts of the two runs the history list
    ends as the record of the run that resumed last followed by the old list,
    with the image of that record; the record of the other run is lost.  The
    store, both writes being accepted, ends with the list of the run whose
    write settled last.  The earlier variant passes an updater to [setHistory]
    in a handler that does not wait, and keeps both records. *)
Theorem run_that_resumes_last_wins `{Platform} (env1 env2 : Env)
        (text1 text2 : string) (data1 data2 url1 url2 : value) (l : list value)
        (schedule : list part) (st : App.State) (st0 : Part000.State) :
  JSON_parse text1 = Some data1 ->
  get_prop data1 "message" = inr (VStr "New image") ->
  get_prop data1 "url" = inr url1 -> truthy url1 = true ->
  JSON_parse text2 = Some data2 ->
  get_prop data2 "message" = inr (VStr "New image") ->
  get_prop data2 "url" = inr url2 -> truthy url2 = true ->
  App.history st = VArr l ->
  In schedule interleavings ->
  let seen := App.history st in
  let r1 := VObj [("url", url1); ("time", VStr (now env1))] in
  let r2 := VObj [("url", url2); ("time", VStr (now env2))] in
  let st' := two_runs seen env1 env2 text1 text2 url1 url2 schedule st in
  let st0' := exec (Part000.onmessage env2 text2)
                   (exec (Part000.onmessage env1 text1) st0) in
  (forall s, App.onmessage_arrives text1 s = (inr (Some url1), s)
             /\ App.onmessage_arrives text2 s = (inr (Some url2), s))
  /\ App.history st'
     = VArr ((if second_is_last resumes schedule false then r2 else r1) :: l)
  /\ App.imageUri st' = (if second_is_last resumes schedule false then url2 else url1)
  /\ App.status st' = "Object detected — image received"
  /\ (setItem_ok env1 = true -> setItem_ok env2 = true ->
      App.storage st' !! App.STORAGE_KEY
      = Some (JSON_stringify
                (VArr ((if second_is_last settles schedule false then r2 else r1) :: l))))
  /\ Part000.history st0' = r2 :: r1 :: Part000.history st0.
Proof.
  intros Hp1 Hm1 Hu1 Ht1 Hp2 Hm2 Hu2 Ht2 Hh Hin seen r1 r2 st' st0'.
  split.
  { intros s. split; eapply onmessage_arrives_new_image; eassumption. }
  assert (Epart : Part000.history st0' = r2 :: r1 :: Part000.history st0).
  { subst st0'. unfold Part000.onmessage, Part000.parse, exec.
    rewrite Hp1, Hp2. run. rewrite Hm1. cbn. rewrite Hu1. cbn. rewrite Ht1. cbn.
    rewrite Hm2. cbn. rewrite Hu2. cbn. rewrite Ht2. reflexivity. }
  subst st' seen. rewrite Hh.
  pose proof (fun s => proj1 (proj2 (updateMainImage_frame env1 url1 s))) as Fi1.
  pose proof (fun s => proj1 (proj2 (updateMainImage_frame env2 url2 s))) as Fi2.
  cbv zeta in Fi1, Fi2.
  unfold interleavings in Hin. cbn [In] in Hin. unfold two_runs.
  repeat (destruct Hin as [<- | Hin]); [ .. | contradiction ];
    cbn [fold_left run_part hooks first_write second_write second_is_last
         resumes settles];
    repeat (rewrite ?(onmessage_resumes_spec l env1 text1 url1),
                    ?(onmessage_resumes_spec l env2 text2 url2),
                    ?onmessage_settles_spec;
            cbn [hooks first_write second_write]);
    fold r1 r2;
    (split; [| split; [| split; [| split; [| exact Epart]]]]);
    try (destruct (setItem_ok env1), (setItem_ok env2);
         cbn [App.history App.imageUri App.status App.with_status App.with_history
              App.with_storage App.with_console];
         rewrite ?Fi1, ?Fi2; reflexivity);
    intros -> ->;
    cbn [App.storage App.with_status App.with_history App.with_storage];
    apply lookup_insert_eq.
Qed.

Lemma run_that_resumes_last_wins_witness :
  let later := mkEnv "10:01" (getSize fair_env) true true in
  let st' := @two_runs reference (VArr []) fair_env later
               (new_image_text "https://x/a.png") (new_image_text "https://x/b.png")
               (VStr "https://x/a.png") (VStr "https://x/b.png")
               [Resumes true; Settles true; Resumes false; Settles false]
               (App.initial ∅) in
  App.history st' = VArr [record "https://x/a.png" "10:00"]
  /\ App.imageUri st' = VStr "https://x/a.png"
  /\ App.storage st' !! App.STORAGE_KEY
     = Some (Reference.stringify (VArr [record "https://x/a.png" "10:00"])).
Proof.
  cbv zeta.
  pose proof (@run_that_resumes_last_wins reference fair_env
                (mkEnv "10:01" (getSize fair_env) true true)
                (new_image_text "https://x/a.png") (new_image_text "https://x/b.png")
                (new_image "https://x/a.png") (new_image "https://x/b.png")
                (VStr "https://x/a.png") (VStr "https://x/b.png") []
                [Resumes true; Settles true; Resumes false; Settles false]
                (App.initial ∅) Part000.initial
                ltac:(vm_compute; reflexivity) ltac:(reflexivity) ltac:(reflexivity)
                ltac:(reflexivity)
                ltac:(vm_compute; reflexivity) ltac:(reflexivity) ltac:(reflexivity)
                ltac:(reflexivity) ltac:(reflexivity)
                ltac:(cbn; tauto)) as W.
  cbv zeta in W. destruct W as (_ & W1 & W2 & _ & W3 & _).
  split; [exact W1|]. split; [exact W2 | exact (W3 eq_refl eq_refl)].
Defined.

(** ** The scenarios of the specification, on the reference engine *)

(** Scenario 1: empty store, one new image. *)
Example scenario_1 :
  let st := App.initial ∅ in
  let st' := exec (@App.onmessage reference (App.history st) fair_env
                     (new_image_text "https://x/a.png")) st in
  App.history st' = VArr [record "https://x/a.png" "10:00"]
  /\ App.imageUri st' = VStr "https://x/a.png"
  /\ App.imageHeight st' = 270%float
  /\ App.storage st' !! App.STORAGE_KEY
     = Some ("[{" +:+ field "url" "https://x/a.png" +:+ ","
                  +:+ field "time" "10:00" +:+ "}]").
Proof. vm_compute. repeat split. Qed.

(** Scenario 2: one record in the store, loaded at startup, then a new
    image. *)
Example scenario_2 :
  let r1 := record "https://x/old.png" "09:00" in
  let store : gmap string string :=
    {[ App.STORAGE_KEY := Reference.stringify (VArr [r1]) ]} in
  let st := exec (@App.load reference fair_env) (App.initial store) in
  let st' := exec (@App.onmessage reference (App.history st) fair_env
                     (new_image_text "https://x/url2.png")) st in
  App.history st = VArr [r1]
  /\ App.imageUri st = VStr "https://x/old.png"
  /\ App.history st' = VArr [record "https://x/url2.png" "10:00"; r1].
Proof. vm_compute. repeat split. Qed.

(** Scenario 3: a ping. *)
Example scenario_3 :
  let st := App.with_status "Connected to server" (App.initial ∅) in
  exec (@App.onmessage reference (App.history st) fair_env ping_text) st = st.
Proof. vm_compute. reflexivity. Qed.

(** A [url] that is a number other than zero passes the test, and one that
    is zero, [null], [false] or missing does not. *)
Example url_is_tested_for_truth :
  let st := App.initial ∅ in
  let message (url : string) : string :=
    "{" +:+ field "message" "New image" +:+ "," +:+ Reference.quoted "url" +:+ ":"
        +:+ url +:+ "}" in
  let after (text : string) : value :=
    App.history (exec (@App.onmessage reference (App.history st) fair_env text) st) in
  after (message "5") = VArr [VObj [("url", VNum 5); ("time", VStr "10:00")]]
  /\ after (message "0") = VArr []
  /\ after (message "null") = VArr []
  /\ after (message "false") = VArr []
  /\ after ("{" +:+ field "message" "New image" +:+ "}") = VArr [].
Proof. vm_compute. repeat split. Qed.

(** ** The reference engine reads back what it writes *)

Section ReadBack.
Import Reference.

Lemma append_String (c : ascii) (a b : string) :
  String c a +:+ b = String c (a +:+ b).
Proof. reflexivity. Qed.

Lemma append_empty (b : string) : "" +:+ b = b.
Proof. reflexivity. Qed.

Lemma append_assoc (a b c : string) : (a +:+ b) +:+ c = a +:+ (b +:+ c).
Proof.
  induction a as [| x a IH]; [reflexivity|].
  rewrite !append_String. now rewrite IH.
Qed.

(** Writes the fuel of a call of [f] in the goal as [need + _]. *)
Ltac fuel_of f need :=
  match goal with
  | |- context [f ?fuel] =>
      replace fuel with (need + (fuel - need)) by (cbn [String.length]; lia)
  end.

Ltac push_append :=
  repeat (rewrite append_assoc || rewrite append_String || rewrite append_empty).

(** The three ways the decoder reads a character of a string. *)
Lemma string_body_plain (c : ascii) (rest : string) :
  (code c =? 34)%nat = false -> (code c =? 92)%nat = false ->
  (code c <? 32)%nat = false ->
  string_body (String c rest)
  = match string_body rest with
    | Some (str, after) => Some (String c str, after)
    | None => None
    end.
Proof. intros E1 E2 E3. cbn [string_body]. rewrite E1, E2, E3. reflexivity. Qed.

Lemma string_body_simple (b e x : ascii) (rest : string) :
  (code b =? 34)%nat = false -> (code b =? 92)%nat = true ->
  (code e =? 117)%nat = false -> simple_escape e = Some x ->
  string_body (String b (String e rest))
  = match string_body rest with
    | Some (str, after) => Some (String x str, after)
    | None => None
    end.
Proof.
  intros E1 E2 E3 E4. cbn [string_body]. rewrite E1, E2, E3, E4. reflexivity.
Qed.

Lemma string_body_unicode (b u h1 h2 h3 h4 : ascii) (n : N) (rest : string) :
  (code b =? 34)%nat = false -> (code b =? 92)%nat = true ->
  (code u =? 117)%nat = true ->
  hex4 h1 h2 h3 h4 = Some n -> (n <? 55296)%N = true ->
  string_body (String b (String u (String h1 (String h2 (String h3 (String h4 rest))))))
  = match string_body rest with
    | Some (str, after) => Some (utf8 n +:+ str, after)
    | None => None
    end.
Proof.
  intros E1 E2 E3 E4 E5. cbn [string_body]. rewrite E1, E2, E3, E4.
  cbn [mbind option_bind]. rewrite E5. reflexivity.
Qed.

(** Which of them applies to the escape of each character. *)
Lemma escape_char_shape (c : ascii) :
  match escape_char c with
  | String d EmptyString =>
      Ascii.eqb d c && negb (code c =? 34)%nat && negb (code c =? 92)%nat
      && negb (code c <? 32)%nat
  | String b (String e EmptyString) =>
      negb (code b =? 34)%nat && (code b =? 92)%nat && negb (code e =? 117)%nat
      && match simple_escape e with
         | Some x => Ascii.eqb x c
         | None => false
         end
  | String b (String u (String h1 (String h2 (String h3 (String h4 EmptyString))))) =>
      negb (code b =? 34)%nat && (code b =? 92)%nat && (code u =? 117)%nat
      && match hex4 h1 h2 h3 h4 with
         | Some n => (n <? 55296)%N && String.eqb (utf8 n) (String c "")
         | None => false
         end
  | _ => false
  end = true.
Proof.
  destruct c as [b0 b1 b2 b3 b4 b5 b6 b7].
  destruct b0, b1, b2, b3, b4, b5, b6, b7; reflexivity.
Qed.

Lemma string_body_escape_char (c : ascii) (tail : string) :
  string_body (escape_char c +:+ tail)
  = match string_body tail with
    | Some (str, after) => Some (String c str, after)
    | None => None
    end.
Proof.
  pose proof (escape_char_shape c) as S.
  destruct (escape_char c) as [| a [| b [| x1 [| x2 [| x3 [| x4 [| x5 r]]]]]]];
    try discriminate S.
  - (* one character *)
    repeat (apply andb_prop in S as [S ?]).
    apply Ascii.eqb_eq in S; subst a.
    push_append. apply string_body_plain; now apply negb_true_iff.
  - (* backslash and a letter *)
    repeat (apply andb_prop in S as [S ?]).
    destruct (simple_escape b) as [x|] eqn:Ex; [| discriminate].
    match goal with E : Ascii.eqb x c = true |- _ => apply Ascii.eqb_eq in E; subst x end.
    push_append. apply string_body_simple; auto; now apply negb_true_iff.
  - (* backslash, u and four digits *)
    repeat (apply andb_prop in S as [S ?]).
    destruct (hex4 x1 x2 x3 x4) as [n|] eqn:Ex; [| discriminate].
    match goal with E : _ && _ = true |- _ => apply andb_prop in E as [En Eu] end.
    apply String.eqb_eq in Eu.
    push_append. rewrite (string_body_unicode a b x1 x2 x3 x4 n); auto.
    + rewrite Eu. reflexivity.
    + now apply negb_true_iff.
Qed.

Lemma string_body_escape (s rest : string) :
  string_body (escape s +:+ String quote rest) = Some (s, rest).
Proof.
  induction s as [| c s IH].
  - reflexivity.
  - cbn [escape]. rewrite append_assoc, string_body_escape_char, IH. reflexivity.
Qed.


Lemma append_empty_r (a : string) : a +:+ "" = a.
Proof.
  induction a as [| x a IH]; [reflexivity|]. rewrite append_String. now rewrite IH.
Qed.

Lemma length_append (a b : string) :
  String.length (a +:+ b) = String.length a + String.length b.
Proof.
  induction a as [| x a IH]; [reflexivity|].
  rewrite append_String. cbn [String.length]. now rewrite IH.
Qed.

Lemma quoted_append (s rest : string) :
  quoted s +:+ rest = String quote (escape s +:+ String quote rest).
Proof. unfold quoted. now push_append. Qed.

(** One step of the decoder, at each of its entries. *)
Lemma parse_string (fuel : nat) (s rest : string) :
  parse_value (S fuel) (quoted s +:+ rest) = Some (VStr s, rest).
Proof.
  rewrite quoted_append. cbn. rewrite string_body_escape. reflexivity.
Qed.

Lemma parse_bracket (fuel : nat) (rest : string) :
  parse_value (S fuel) (String "[" rest)
  = match skip_ws rest with
    | String c after =>
        if (code c =? 93)%nat then Some (VArr [], after)
        else match elements fuel rest with
             | Some (l, after') => Some (VArr l, after')
             | None => None
             end
    | EmptyString => None
    end.
Proof. reflexivity. Qed.

Lemma parse_brace (fuel : nat) (rest : string) :
  parse_value (S fuel) (String "{" rest)
  = match skip_ws rest with
    | String c after =>
        if (code c =? 125)%nat then Some (VObj [], after)
        else match members fuel rest [] with
             | Some (ps, after') => Some (VObj ps, after')
             | None => None
             end
    | EmptyString => None
    end.
Proof. reflexivity. Qed.

Lemma elements_step (fuel : nat) (s : string) :
  elements (S fuel) s
  = match parse_value fuel s with
    | Some (v, after) =>
        match skip_ws after with
        | String c rest =>
            if (code c =? 44)%nat then
              match elements fuel rest with
              | Some (l, after') => Some (v :: l, after')
              | None => None
              end
            else if (code c =? 93)%nat then Some ([v], rest)
            else None
        | EmptyString => None
        end
    | None => None
    end.
Proof. cbn [elements]. destruct (parse_value fuel s) as [[v after]|]; reflexivity. Qed.

Lemma members_step (fuel : nat) (k : string) (rest : string)
      (acc : list (string * value)) :
  members (S fuel) (quoted k +:+ String ":" rest) acc
  = match parse_value fuel rest with
    | Some (v, after) =>
        match skip_ws after with
        | String c rest' =>
            if (code c =? 44)%nat then members fuel rest' (define acc k v)
            else if (code c =? 125)%nat then Some (define acc k v, rest')
            else None
        | EmptyString => None
        end
    | None => None
    end.
Proof.
  rewrite quoted_append. cbn. rewrite string_body_escape. cbn.
  destruct (parse_value fuel rest) as [[v after]|]; reflexivity.
Qed.

(** A printed value starts with a character that is neither white space
    nor a closing bracket or brace. *)
Lemma stringify_head (v : value) (rest : string) :
  text_value v = true ->
  exists c tail,
    stringify v +:+ rest = String c tail
    /\ skip_ws (String c tail) = String c tail
    /\ (code c =? 93)%nat = false /\ (code c =? 125)%nat = false.
Proof.
  destruct v as [| | [] | | | |]; try discriminate; intros _;
    eexists _, _; (split; [reflexivity | split; [reflexivity | split; reflexivity]]).
Qed.

Lemma member_texts_cons (k : string) (x : value) (rest : list (string * value)) :
  text_value x = true ->
  member_texts stringify ((k, x) :: rest)
  = (quoted k +:+ ":" +:+ stringify x) :: member_texts stringify rest.
Proof. destruct x; try discriminate; reflexivity. Qed.

Lemma define_fresh (acc : list (string * value)) (k : string) (v : value) :
  existsb (fun p => String.eqb (fst p) k) acc = false ->
  define acc k v = (acc ++ [(k, v)])%list.
Proof.
  induction acc as [| [k' v'] acc IH]; [reflexivity|].
  cbn. intros E. apply orb_false_elim in E as [E1 E2].
  rewrite E1, (IH E2). reflexivity.
Qed.

(** The elements of an array, after the opening bracket. *)
Lemma read_back_elements (n : nat)
      (IH : forall v, nodes v <= n -> text_value v = true ->
            forall k rest,
              parse_value (String.length (stringify v) + k) (stringify v +:+ rest)
              = Some (v, rest))
      (l : list value) :
  forall x k rest,
    Forall (fun y => nodes y <= n /\ text_value y = true) (x :: l) ->
    elements (S (String.length (join "," (map stringify (x :: l)))) + k)
             (join "," (map stringify (x :: l)) +:+ String "]" rest)
    = Some (x :: l, rest).
Proof.
  induction l as [| y l IHl]; intros x k rest Hall;
    inversion Hall as [| ? ? [Hn Ht] Hall']; subst.
  - cbn [map join String.concat]. cbn [Nat.add]. rewrite elements_step.
    rewrite (IH x Hn Ht k (String "]" rest)). reflexivity.
  - change (join "," (map stringify (x :: y :: l)))
      with (stringify x +:+ "," +:+ join "," (map stringify (y :: l))).
    rewrite length_append. push_append. cbn [String.length].
    remember (join "," (map stringify (y :: l))) as J eqn:EJ.
    replace (S (String.length (stringify x) + S (String.length J)) + k)
      with (S (String.length (stringify x) + (S (String.length J) + k))) by lia.
    rewrite elements_step.
    rewrite (IH x Hn Ht (S (String.length J) + k)
               (String "," (J +:+ String "]" rest))).
    cbn.
    replace (String.length (stringify x) + S (String.length J + k))
      with (S (String.length J) + (String.length (stringify x) + k)) by lia.
    subst J. rewrite (IHl y _ rest Hall'). reflexivity.
Qed.

Lemma text_props_cons (k : string) (x : value) (ps : list (string * value)) :
  text_props text_value ((k, x) :: ps) = true ->
  text_value x = true
  /\ Forall (fun p => String.eqb k (fst p) = false) ps
  /\ text_props text_value ps = true.
Proof.
  cbn. intros E. apply andb_prop in E as [E E3]. apply andb_prop in E as [E1 E2].
  repeat split; auto.
  apply negb_true_iff in E2. clear -E2.
  induction ps as [| p ps IH]; constructor; cbn in E2;
    apply orb_false_elim in E2 as [E E2]; auto.
  rewrite String.eqb_sym. exact E.
Qed.

(** The members of an object, after the opening brace. *)
Lemma read_back_members (n : nat)
      (IH : forall v, nodes v <= n -> text_value v = true ->
            forall k rest,
              parse_value (String.length (stringify v) + k) (stringify v +:+ rest)
              = Some (v, rest))
      (ps : list (string * value)) :
  forall k0 x acc k rest,
    text_props text_value ((k0, x) :: ps) = true ->
    Forall (fun p => nodes (snd p) <= n) ((k0, x) :: ps) ->
    Forall (fun p => existsb (fun q => String.eqb (fst q) (fst p)) acc = false)
           ((k0, x) :: ps) ->
    members (S (String.length (join "," (member_texts stringify ((k0, x) :: ps)))) + k)
            (join "," (member_texts stringify ((k0, x) :: ps)) +:+ String "}" rest) acc
    = Some ((acc ++ (k0, x) :: ps)%list, rest).
Proof.
  induction ps as [| [k1 y] ps IHps]; intros k0 x acc k rest Ht Hn Hf;
    apply text_props_cons in Ht as (Hx & Hk & Hps);
    inversion Hn as [| ? ? Hnx Hn']; subst;
    inversion Hf as [| ? ? Hfx Hf']; subst; cbn [fst snd] in *;
    rewrite (member_texts_cons _ _ _ Hx).
  - cbn [member_texts join String.concat].
    rewrite !length_append. push_append. cbn [Nat.add].
    rewrite (members_step _ k0 (stringify x +:+ String "}" rest) acc).
    fuel_of parse_value (String.length (stringify x)).
    rewrite (IH x Hnx Hx _ (String "}" rest)). cbn.
    rewrite (define_fresh _ _ _ Hfx). reflexivity.
  - pose proof Hps as Hps'. apply text_props_cons in Hps' as (Hy & _ & _).
    rewrite (member_texts_cons _ _ _ Hy) in *.
    remember (member_texts stringify ps) as ms eqn:Ems.
    change (join "," ((quoted k0 +:+ ":" +:+ stringify x)
                        :: (quoted k1 +:+ ":" +:+ stringify y) :: ms))
      with ((quoted k0 +:+ ":" +:+ stringify x) +:+ ","
            +:+ join "," ((quoted k1 +:+ ":" +:+ stringify y) :: ms)).
    remember (join "," ((quoted k1 +:+ ":" +:+ stringify y) :: ms)) as J eqn:EJ.
    rewrite !length_append. push_append. cbn [Nat.add].
    rewrite (members_step _ k0 (stringify x +:+ String "," (J +:+ String "}" rest)) acc).
    fuel_of parse_value (String.length (stringify x)).
    rewrite (IH x Hnx Hx _ (String "," (J +:+ String "}" rest))). cbn.
    rewrite (define_fresh _ _ _ Hfx).
    fuel_of members (S (String.length J)).
    subst J ms.
    rewrite <- (member_texts_cons _ _ _ Hy).
    rewrite (IHps k1 y (acc ++ [(k0, x)])%list _ rest Hps Hn').
    + rewrite <- app_assoc. reflexivity.
    + clear -Hf' Hk.
      induction Hf' as [| p qs Hp Hqs IHq]; constructor;
        inversion Hk as [| ? ? Hkp Hk']; subst; auto.
      rewrite existsb_app, Hp. cbn. rewrite Hkp. reflexivity.
Qed.

Lemma nodes_in (l : list value) (y : value) :
  In y l -> nodes y < list_sum (map (fun x => S (nodes x)) l).
Proof.
  induction l as [| x l IH]; [intros []|].
  intros [-> | Hy].
  - change (nodes y < S (nodes y) + list_sum (map (fun x => S (nodes x)) l)). lia.
  - specialize (IH Hy).
    change (nodes y < S (nodes x) + list_sum (map (fun x => S (nodes x)) l)). lia.
Qed.

Lemma nodes_props_bound (n : nat) (ps : list (string * value)) :
  nodes_props nodes ps <= n -> Forall (fun p => nodes (snd p) <= n) ps.
Proof.
  revert n. induction ps as [| [k x] ps IH]; intros n Hn; constructor;
    cbn in Hn |- *; [lia|].
  apply IH. lia.
Qed.

Lemma elements_head (x : value) (l : list value) (R : string) :
  exists R', join "," (map stringify (x :: l)) +:+ R = stringify x +:+ R'.
Proof.
  destruct l as [| y l]; [exists R; reflexivity|].
  change (join "," (map stringify (x :: y :: l)))
    with (stringify x +:+ "," +:+ join "," (map stringify (y :: l))).
  rewrite append_assoc. eexists. reflexivity.
Qed.

Lemma members_head (k : string) (x : value) (ps : list (string * value)) (R : string) :
  text_props text_value ((k, x) :: ps) = true ->
  exists tail,
    join "," (member_texts stringify ((k, x) :: ps)) +:+ R = String quote tail.
Proof.
  intros Ht. apply text_props_cons in Ht as (Hx & _ & Hps).
  rewrite (member_texts_cons _ _ _ Hx).
  destruct ps as [| [k1 y] ps].
  - cbn [member_texts join String.concat]. rewrite append_assoc, quoted_append.
    eexists. reflexivity.
  - apply text_props_cons in Hps as (Hy & _ & _).
    rewrite (member_texts_cons _ _ _ Hy).
    remember (member_texts stringify ps) as ms.
    change (join "," ((quoted k +:+ ":" +:+ stringify x)
                        :: (quoted k1 +:+ ":" +:+ stringify y) :: ms))
      with ((quoted k +:+ ":" +:+ stringify x) +:+ ","
            +:+ join "," ((quoted k1 +:+ ":" +:+ stringify y) :: ms)).
    rewrite !append_assoc, quoted_append. eexists. reflexivity.
Qed.

(** A text value is read back from its printed form, whatever follows. *)
Lemma read_back_bounded (n : nat) :
  forall v, nodes v <= n -> text_value v = true ->
  forall k rest,
    parse_value (String.length (stringify v) + k) (stringify v +:+ rest)
    = Some (v, rest).
Proof.
  induction n as [| n IH]; intros v Hn Ht k rest.
  { destruct v; cbn in Hn; lia. }
  destruct v as [| | b | f | s | l | ps]; try discriminate Ht.
  - reflexivity.
  - destruct b; reflexivity.
  - cbn [stringify]. unfold quoted at 1. cbn [String.length Nat.add].
    apply parse_string.
  - (* an array *)
    cbn [stringify]. rewrite !length_append. push_append.
    cbn [String.length Nat.add]. rewrite parse_bracket.
    destruct l as [| x l]; [reflexivity|].
    assert (Hall : Forall (fun y => nodes y <= n /\ text_value y = true) (x :: l)).
    { cbn [text_value] in Ht. rewrite forallb_forall in Ht.
      apply List.Forall_forall. intros y Hy. split; [| apply Ht, Hy].
      cbn [nodes] in Hn. apply nodes_in in Hy. lia. }
    destruct (elements_head x l (String "]" rest)) as [R' EJ].
    inversion Hall as [| ? ? [_ Hx] _]; subst.
    destruct (stringify_head x R' Hx) as (c & tail & E1 & E2 & E3 & _).
    rewrite EJ, E1, E2, E3, <- E1, <- EJ.
    fuel_of elements (S (String.length (join "," (map stringify (x :: l))))).
    rewrite (read_back_elements n IH l x _ rest Hall). reflexivity.
  - (* an object *)
    cbn [stringify]. rewrite !length_append. push_append.
    cbn [String.length Nat.add]. rewrite parse_brace.
    destruct ps as [| [k0 x] ps]; [reflexivity|].
    cbn [text_value] in Ht. cbn [nodes] in Hn.
    destruct (members_head k0 x ps (String "}" rest) Ht) as [tail EJ].
    rewrite EJ. change (skip_ws (String quote tail)) with (String quote tail).
    change ((code quote =? 125)%nat) with false. cbv iota. rewrite <- EJ.
    fuel_of members
      (S (String.length (join "," (member_texts stringify ((k0, x) :: ps))))).
    rewrite (read_back_members n IH ps k0 x [] _ rest Ht).
    + reflexivity.
    + apply nodes_props_bound. lia.
    + apply List.Forall_forall. reflexivity.
Qed.

(** The reference engine reads back every text value it prints. *)
Lemma reference_reads_back (v : value) :
  text_value v = true -> parse (stringify v) = Some v.
Proof.
  intros Ht. unfold parse.
  pose proof (read_back_bounded (nodes v) v (le_n _) Ht
                (String.length (stringify v) + 2) "") as E.
  rewrite append_empty_r in E.
  replace (2 * String.length (stringify v) + 2)
    with (String.length (stringify v) + (String.length (stringify v) + 2)) by lia.
  rewrite E. reflexivity.
Qed.

End ReadBack.

(** ** The round trip through the store *)

Lemma reference_prints_something (v : value) :
  Reference.text_value v = true -> Reference.stringify v <> "".
Proof.
  intros Ht E. destruct (stringify_head v "" Ht) as (c & tail & E1 & _).
  rewrite append_empty_r, E in E1. discriminate E1.
Qed.




(** X2: on the reference engine the round trip needs no assumption on the
    engine: for every non-empty [url], whatever text values the list the
    handler saw holds, a load or a refresh from the store that an accepted
    write left yields the list with the new record first. *)
Theorem reference_append_then_load (env env' : Env) (url : string)
        (l : list value) (st st2 : App.State) :
  url <> "" ->
  forallb Reference.text_value l = true ->
  App.history st = VArr l ->
  setItem_ok env = true ->
  getItem_ok env' = true ->
  let st1 := exec (@App.onmessage reference (App.history st) env
                     (new_image_text url)) st in
  App.storage st2 = App.storage st1 ->
  App.history (exec (@App.load reference env') st2)
  = VArr (record url (now env) :: l)
  /\ App.history (exec (@App.onRefresh reference env') st2)
     = VArr (record url (now env) :: l).
Proof.
  intros Hu Hl Hh Hw Hr st1 Hst.
  assert (Ht : Reference.text_value (VArr (record url (now env) :: l)) = true)
    by (cbn; exact Hl).
  assert (Hp : @JSON_parse reference (new_image_text url) = Some (new_image url))
    by (apply reference_reads_back; reflexivity).
  assert (Hy : truthy (VStr url) = true)
    by (cbn; destruct (String.eqb_spec url ""); [contradiction | reflexivity]).
  destruct (@onmessage_then_load reference env env' (new_image_text url)
              (new_image url) (VStr url) l st st2 Hp eq_refl eq_refl Hy Hh Hw
              (reference_prints_something _ Ht) (reference_reads_back _ Ht) Hr Hst)
    as (_ & E1 & E2).
  split; [exact E1 | exact E2].
Qed.

Lemma reference_append_then_load_witness :
  let old := record "https://x/old.png" "09:00" in
  let st := App.with_history (VArr [old]) (App.initial ∅) in
  let st1 := exec (@App.onmessage reference (App.history st) fair_env
                     (new_image_text "https://x/a.png")) st in
  App.history (exec (@App.onRefresh reference fair_env) st1)
  = VArr [record "https://x/a.png" "10:00"; old].
Proof.
  cbv zeta.
  pose proof (reference_append_then_load fair_env fair_env "https://x/a.png"
                [record "https://x/old.png" "09:00"]
                (App.with_history (VArr [record "https://x/old.png" "09:00"])
                                  (App.initial ∅))
                (exec (@App.onmessage reference
                         (VArr [record "https://x/old.png" "09:00"]) fair_env
                         (new_image_text "https://x/a.png"))
                      (App.with_history (VArr [record "https://x/old.png" "09:00"])
                                        (App.initial ∅)))
                ltac:(intros E; discriminate E) ltac:(reflexivity) ltac:(reflexivity)
                ltac:(reflexivity) ltac:(reflexivity) ltac:(reflexivity)) as W.
  cbv zeta in W. destruct W as (_ & W). exact W.
Defined.

(** ** Every list the component holds is an array *)

Lemma new_image_payload_true (data : value) :
  new_image_payload data = true ->
  exists url, get_prop data "message" = inr (VStr "New image")
              /\ get_prop data "url" = inr url /\ truthy url = true.
Proof.
  unfold new_image_payload.
  destruct (get_prop data "message") as [e | message]; [discriminate|].
  destruct (strict_eq_string message "New image") eqn:Es; [| discriminate].
  apply strict_eq_string_true in Es; subst message.
  destruct (get_prop data "url") as [e | url]; [discriminate|].
  cbn. eauto.
Qed.

Section Invariant.
Context `{Platform}.

(** What the invariant needs of the engine: an array is printed with an
    opening bracket, and a text with an opening bracket is read as an
    array. *)
Hypothesis prints_bracket :
  forall l, array_text (JSON_stringify (VArr l)).
Hypothesis reads_bracket :
  forall rest v, JSON_parse (String "[" rest) = Some v -> is_array v.

Lemma reread_is_array (env : Env) (st : App.State) :
  is_array (App.history st) ->
  (forall text, App.storage st !! App.STORAGE_KEY = Some text -> array_text text) ->
  is_array match (if getItem_ok env
                  then App.stored_text (App.storage st !! App.STORAGE_KEY)
                  else None) with
           | Some text => match JSON_parse text with
                          | Some parsed => parsed
                          | None => App.history st
                          end
           | None => App.history st
           end.
Proof.
  intros Hh Hs. destruct (getItem_ok env); [| exact Hh].
  destruct (App.storage st !! App.STORAGE_KEY) as [text|] eqn:Ek; [| exact Hh].
  unfold App.stored_text. destruct (String.eqb text ""); [exact Hh|].
  destruct (Hs text eq_refl) as [rest ->].
  destruct (JSON_parse (String "[" rest)) as [parsed|] eqn:Ep; [| exact Hh].
  exact (reads_bracket _ _ Ep).
Qed.

Lemma onmessage_well_formed (env : Env) (text : string) (sys : App.System) :
  well_formed sys -> well_formed (App.handle (App.Message env text) sys).
Proof.
  intros (Hh & [l Hl] & Hs). destruct sys as [st seen]. cbn in *. subst seen.
  unfold well_formed. cbn [App.app App.seen].
  destruct (JSON_parse text) as [data|] eqn:Ep.
  - destruct (new_image_payload data) eqn:En.
    + destruct (new_image_payload_true _ En) as (url & Hm & Hu & Ht).
      pose proof (App_onmessage_new_image (VArr l) env text data url l st
                    Ep Hm Hu Ht eq_refl) as E. cbv zeta in E.
      destruct (updateMainImage_spec env url st) as [log Eu].
      unfold exec. rewrite E. unfold exec. rewrite saveHistory_spec, Eu.
      destruct (setItem_ok env); cbn; (split; [eexists; reflexivity|]);
        (split; [eexists; reflexivity|]); [| exact Hs].
      intros t Et. rewrite lookup_insert_eq in Et. inversion Et; subst.
      apply prints_bracket.
    + destruct (App_onmessage_other (VArr l) env text data st Ep En) as [log E].
      unfold exec. rewrite E. cbn. repeat split; [exact Hh | now exists l | exact Hs].
  - unfold exec, App.onmessage, App.parse. rewrite Ep. run.
    repeat split; [exact Hh | now exists l | exact Hs].
Qed.

(** Every event keeps the lists arrays and the entry of the store the text
    of one. *)
Lemma handle_well_formed (ev : App.event) (sys : App.System) :
  well_formed sys -> well_formed (App.handle ev sys).
Proof.
  intros W. destruct ev as [env | | state | | env text | | | env |];
    try (destruct W as (Hh & Hn & Hs); destruct sys as [st seen];
         unfold well_formed; cbn in *; now auto).
  - (* the load effect *)
    destruct W as (Hh & Hn & Hs). destruct sys as [st seen].
    unfold well_formed. cbn [App.handle App.app App.seen] in *.
    rewrite load_history, load_storage. split; [| auto].
    now apply reread_is_array.
  - now apply onmessage_well_formed.
  - (* the refresh gesture *)
    destruct W as (Hh & Hn & Hs). destruct sys as [st seen].
    unfold well_formed. cbn [App.handle App.app App.seen] in *.
    rewrite onRefresh_history, onRefresh_storage. split; [| auto].
    now apply reread_is_array.
Qed.

(** X3: from a start with an empty store, or with the text of an array in it,
    whatever happens the history list is an array, and so is the list that
    the socket handler in place saw: the handler can always spread it. *)
Theorem history_is_always_an_array (store : gmap string string)
        (evs : list App.event) :
  (forall text, store !! App.STORAGE_KEY = Some text -> array_text text) ->
  well_formed (App.run_events evs (App.mount store)).
Proof.
  intros Hs. unfold App.run_events.
  assert (W : well_formed (App.mount store)).
  { unfold well_formed, App.mount. cbn. repeat split; eauto using ex_intro.
    - now exists [].
    - now exists []. }
  revert W. generalize (App.mount store).
  induction evs as [| ev evs IH]; intros sys W; [exact W|].
  cbn. apply IH, handle_well_formed, W.
Qed.

End Invariant.

(** The reference engine is such an engine. *)
Lemma reference_prints_bracket (l : list value) :
  array_text (Reference.stringify (VArr l)).
Proof. eexists. reflexivity. Qed.

Lemma reference_reads_bracket (rest : string) (v : value) :
  Reference.parse (String "[" rest) = Some v -> is_array v.
Proof.
  unfold Reference.parse.
  change (2 * String.length (String "[" rest) + 2)
    with (S (String.length rest + S (String.length rest + 0) + 2)).
  rewrite parse_bracket.
  destruct (Reference.skip_ws rest) as [| c after]; [discriminate|].
  destruct (Reference.code c =? 93)%nat.
  - cbn. destruct (Reference.skip_ws after); intros E; inversion E. now exists [].
  - destruct (Reference.elements _ rest) as [[l after']|]; [| discriminate].
    cbn. destruct (Reference.skip_ws after'); intros E; inversion E. now exists l.
Qed.

Lemma history_is_always_an_array_witness :
  let evs := [App.Loaded fair_env; App.Socket OPEN; App.Opened;
              App.Message fair_env (new_image_text "https://x/a.png");
              App.Message fair_env (new_image_text "https://x/b.png");
              App.Rendered; App.Refresh fair_env] in
  well_formed (@App.run_events reference evs (App.mount ∅))
  /\ App.history (App.app (@App.run_events reference evs (App.mount ∅)))
     = VArr [record "https://x/b.png" "10:00"].
Proof.
  cbv zeta. split; [| vm_compute; reflexivity].
  apply (@history_is_always_an_array reference reference_prints_bracket
           reference_reads_bracket ∅).
  intros text E. rewrite lookup_empty in E. discriminate E.
Defined.

(** ** The length of an array, as a number *)

Lemma digits2_pos_shift (p k : positive) :
  digits2_pos (Pos.iter xO p k) = (digits2_pos p + k)%positive.
Proof.
  induction k as [| k IH] using Pos.peano_ind.
  - cbn. lia.
  - rewrite Pos.iter_succ. cbn [digits2_pos]. rewrite IH. lia.
Qed.

Lemma digits2_pos_lower (p : positive) :
  (2 ^ (Zpos (digits2_pos p) - 1) <= Zpos p)%Z.
Proof.
  induction p as [p IH | p IH |]; cbn [digits2_pos]; [| | cbn; lia].
  - rewrite Pos2Z.inj_succ.
    replace (Z.succ (Zpos (digits2_pos p)) - 1)%Z
      with (Z.succ (Zpos (digits2_pos p) - 1))%Z by lia.
    rewrite Z.pow_succ_r by lia. lia.
  - rewrite Pos2Z.inj_succ.
    replace (Z.succ (Zpos (digits2_pos p)) - 1)%Z
      with (Z.succ (Zpos (digits2_pos p) - 1))%Z by lia.
    rewrite Z.pow_succ_r by lia. lia.
Qed.

Lemma digits2_pos_small (p : positive) :
  (Zpos p < 2 ^ 53)%Z -> (Zpos (digits2_pos p) <= 53)%Z.
Proof.
  intros Hp. pose proof (digits2_pos_lower p) as L.
  destruct (Z.le_gt_cases (Zpos (digits2_pos p)) 53) as [|G]; [assumption|].
  assert (2 ^ 53 <= 2 ^ (Zpos (digits2_pos p) - 1))%Z
    by (apply Z.pow_le_mono_r; lia).
  lia.
Qed.

(** A mantissa of 53 bits at an exponent within range is its own rounding. *)
Lemma binary_round_aux_exact (m : positive) (e : Z) :
  digits2_pos m = 53%positive -> (-1074 <= e <= 971)%Z ->
  binary_round_aux prec emax false (Zpos m) e loc_Exact = S754_finite false m e.
Proof.
  intros Hd He.
  assert (F : shr_fexp prec emax (Zpos m) e loc_Exact
              = (Build_shr_record (Zpos m) false false, e)).
  { unfold shr_fexp, Zdigits2, fexp, emin. rewrite Hd.
    replace (Z.max (53 + e - prec) (3 - emax - prec) - e)%Z with 0%Z
      by (unfold prec, emax; lia).
    reflexivity. }
  unfold binary_round_aux. rewrite F. cbn [shr_m loc_of_shr_record round_nearest_even].
  rewrite F. cbn [shr_m].
  replace (e <=? emax - prec)%Z with true
    by (symmetry; apply Z.leb_le; unfold prec, emax; lia).
  reflexivity.
Qed.

Lemma binary_normalize_small (p : positive) :
  (Zpos p < 2 ^ 53)%Z ->
  exists m e, binary_normalize prec emax (Zpos p) 0 false = S754_finite false m e.
Proof.
  intros Hp. pose proof (digits2_pos_small p Hp) as Hd.
  unfold binary_normalize, binary_round, shl_align, fexp, emin.
  replace (Z.max (Zpos (digits2_pos p) + 0 - prec) (3 - emax - prec) - 0)%Z
    with (Zpos (digits2_pos p) - 53)%Z by (unfold prec, emax; lia).
  replace (Z.max (Zpos (digits2_pos p) + 0 - prec) (3 - emax - prec))%Z
    with (Zpos (digits2_pos p) - 53)%Z by (unfold prec, emax; lia).
  destruct (Zpos (digits2_pos p) - 53)%Z as [| k | k] eqn:Ek.
  - eexists _, _. apply binary_round_aux_exact; [| lia].
    assert (Zpos (digits2_pos p) = 53)%Z by lia. congruence.
  - lia.
  - eexists _, _. rewrite <- Ek. apply binary_round_aux_exact; [| lia].
    rewrite digits2_pos_shift. lia.
Qed.

(** The length of a non-empty array is a number above zero. *)
Lemma length_gt_zero (n : nat) :
  (0 < n)%nat -> (Z.of_nat n < 2 ^ 53)%Z ->
  PrimFloat.ltb 0 (nat_to_float n) = true.
Proof.
  intros Hn Hb. unfold nat_to_float.
  rewrite ltb_spec, of_uint63_spec, Uint63.of_Z_spec.
  assert (W : (2 ^ 53 < Uint63.wB)%Z) by reflexivity.
  rewrite Z.mod_small by lia.
  destruct (Z.of_nat n) as [| p |] eqn:Ez; try lia.
  destruct (binary_normalize_small p Hb) as (m & e & ->).
  reflexivity.
Qed.

Lemma length_not_gt_zero : PrimFloat.ltb 0 (nat_to_float 0) = false.
Proof. reflexivity. Qed.

(** ** What the component shows *)

Section Render.
Context `{Platform}.

Lemma gt_zero_length (l : list value) :
  (Z.of_nat (length l) < 2 ^ 53)%Z ->
  gt_zero (VNum (nat_to_float (length l)))
  = match l with [] => false | _ :: _ => true end.
Proof.
  intros Hb. destruct l as [| x l].
  - reflexivity.
  - apply length_gt_zero; [cbn; lia | exact Hb].
Qed.

(** The render of an array never throws, whatever the length is taken to
    be. *)
Lemma render_array (st : App.State) (l : list value) :
  App.history st = VArr l ->
  exists rows,
    App.render st
    = inr (EView None
             [EText (VStr "Door Safety System");
              EText (VStr (App.status st));
              EView None [if truthy (App.imageUri st)
                          then EImage (App.imageUri st) (Some (App.imageHeight st))
                          else EText (VStr "No image yet")];
              EText (VStr "Detection History");
              EScrollView (Some (App.refreshing st)) rows])
    /\ rows = (if gt_zero (VNum (nat_to_float (length l)))
               then imap (fun index item => EHistoryImage index item App.screenWidth) l
               else [EText (VStr "No history yet")]).
Proof.
  intros Hh. unfold App.render. rewrite Hh.
  change (get_prop (VArr l) "length") with (@inr exn _ (VNum (nat_to_float (length l)))).
  cbv beta iota zeta.
  destruct (gt_zero (VNum (nat_to_float (length l)))); eexists; split; reflexivity.
Qed.

End Render.

(** X4: while the history list is an array (of fewer than 2^32 elements, as
    every array is), the render of [src/App.tsx] does not throw.  It shows the
    status, the main image at its height when the image reference is truthy
    and the text "No image yet" otherwise, the refresh control with the
    [refreshing] flag, and for the history: the text "No history yet" when
    the list is empty, otherwise one [HistoryImage] per element, in the order
    of the list, keyed by its position and given the window width less 40. *)
Theorem render_shows_history `{Platform} (st : App.State) (l : list value) :
  App.history st = VArr l ->
  (Z.of_nat (length l) < 2 ^ 32)%Z ->
  exists rows,
    App.render st
    = inr (EView None
             [EText (VStr "Door Safety System");
              EText (VStr (App.status st));
              EView None [if truthy (App.imageUri st)
                          then EImage (App.imageUri st) (Some (App.imageHeight st))
                          else EText (VStr "No image yet")];
              EText (VStr "Detection History");
              EScrollView (Some (App.refreshing st)) rows])
    /\ (l = [] -> rows = [EText (VStr "No history yet")])
    /\ (l <> [] ->
        length rows = length l
        /\ forall i item,
             l !! i = Some item ->
             rows !! i
             = Some (EHistoryImage i item (PrimFloat.sub window_width 40))).
Proof.
  intros Hh Hb. destruct (render_array st l Hh) as (rows & E & Er).
  exists rows. split; [exact E|].
  rewrite gt_zero_length in Er by lia. subst rows.
  split; intros Hl.
  - subst l. reflexivity.
  - destruct l as [| x l]; [contradiction|]. split.
    + apply length_imap.
    + intros i item Hi. rewrite list_lookup_imap, Hi. reflexivity.
Qed.

Lemma render_shows_history_witness :
  let r := record "https://x/a.png" "10:00" in
  let st := App.with_history (VArr [r]) (App.initial ∅) in
  exists rows,
    @App.render reference st
    = inr (EView None
             [EText (VStr "Door Safety System");
              EText (VStr "Disconnected");
              EView None [EText (VStr "No image yet")];
              EText (VStr "Detection History");
              EScrollView (Some false) rows])
    /\ rows !! 0%nat = Some (EHistoryImage 0 r 360).
Proof.
  cbv zeta.
  destruct (@render_shows_history reference
              (App.with_history (VArr [record "https://x/a.png" "10:00"])
                                (App.initial ∅))
              [record "https://x/a.png" "10:00"] eq_refl ltac:(reflexivity))
    as (rows & E & _ & Hr).
  exists rows. split; [exact E|].
  destruct (Hr ltac:(discriminate)) as [_ Hi]. exact (Hi 0%nat _ eq_refl).
Defined.

(** X5: a stored text that decodes to [null] (the text null is valid JSON)
    is taken as the history list by the load effect and by the refresh
    gesture, and [App] throws a TypeError on [history.length] when it renders
    that list.  Under a root that batches the write, the load effect fails
    next on [parsed.length], which is caught and logged, and the refresh
    gesture goes on to the socket with nothing logged: both end normally with
    [null] for the list, which the render that follows cannot show.  Under a
    root out of whose [setHistory] the error of that render comes, both
    handlers catch it and log it, and the refresh gesture neither sends nor
    sets the status. *)
Theorem stored_null_breaks_render `{Platform} (throws : App.root) (env : Env)
        (text : string) (st : App.State) :
  getItem_ok env = true ->
  App.stored_text (App.storage st !! App.STORAGE_KEY) = Some text ->
  JSON_parse text = Some VNull ->
  let st' := exec (App.load_on throws env) st in
  let st'' := exec (App.onRefresh_on throws env) st in
  (forall s, App.history s = VNull -> App.render s = inl TypeError)
  /\ outcome (App.load_on throws env) st = inr tt
  /\ outcome (App.onRefresh_on throws env) st = inr tt
  /\ match throws VNull with
     | None =>
         App.history st' = VNull
         /\ App.console st'
            = (App.console st ++ [("⚠️ Error loading history:", LErr TypeError)])%list
         /\ App.render st' = inl TypeError
         /\ App.history st'' = VNull
         /\ App.console st'' = App.console st
         /\ App.render st'' = inl TypeError
     | Some e =>
         App.console st'
         = (App.console st ++ [("⚠️ Error loading history:", LErr e)])%list
         /\ App.console st''
            = (App.console st ++ [("⚠️ Error refreshing history:", LErr e)])%list
         /\ App.sent st'' = App.sent st
         /\ App.status st'' = App.status st
     end.
Proof.
  intros Hr Hs Hp. cbv zeta.
  assert (Hn : forall s, App.history s = VNull -> App.render s = inl TypeError).
  { intros s Eh. unfold App.render. rewrite Eh. reflexivity. }
  split; [exact Hn|].
  unfold exec, outcome, App.load_on, App.onRefresh_on, App.setHistory_on,
    App.AsyncStorage_getItem, App.parse.
  rewrite Hr. run. rewrite Hs, Hp. cbn.
  destruct (throws VNull) as [e|]; cbn.
  - tauto.
  - destruct (App.wsRef st) as [[]|]; cbn; repeat split; apply Hn; reflexivity.
Qed.

Lemma stored_null_breaks_render_witness :
  let st := App.with_wsRef (Some OPEN) (App.initial {[ App.STORAGE_KEY := "null" ]}) in
  let legacy : App.root :=
    fun x => match x with VNull => Some TypeError | _ => None end in
  (outcome (@App.load reference fair_env) st = inr tt
   /\ @App.render reference (exec (@App.load reference fair_env) st) = inl TypeError)
  /\ App.sent (exec (@App.onRefresh_on reference legacy fair_env) st) = [].
Proof.
  cbv zeta.
  pose proof (@stored_null_breaks_render reference App.batched fair_env "null"
                (App.with_wsRef (Some OPEN)
                   (App.initial {[ App.STORAGE_KEY := "null" ]}))
                ltac:(reflexivity) ltac:(vm_compute; reflexivity)
                ltac:(vm_compute; reflexivity)) as B.
  pose proof (@stored_null_breaks_render reference
                (fun x => match x with VNull => Some TypeError | _ => None end)
                fair_env "null"
                (App.with_wsRef (Some OPEN)
                   (App.initial {[ App.STORAGE_KEY := "null" ]}))
                ltac:(reflexivity) ltac:(vm_compute; reflexivity)
                ltac:(vm_compute; reflexivity)) as L.
  cbv zeta in B, L.
  destruct B as (_ & B1 & _ & _ & _ & B2 & _). destruct L as (_ & _ & _ & _ & _ & L1 & _).
  split; [split; [exact B1 | exact B2] | exact L1].
Defined.

(** ** The main image after a load and after a refresh *)

Section MainImage.
Context `{Platform}.



End MainImage.



(** ** What the handlers leave alone *)

Section Frame.
Context `{Platform}.

(** A handler that saw something it cannot spread: the image is updated, the
    failure is caught, and nothing is recorded. *)
Lemma App_onmessage_no_spread (h : value) (env : Env) (e_data : string)
      (data url : value) (e : exn) (st : App.State) :
  JSON_parse e_data = Some data ->
  get_prop data "message" = inr (VStr "New image") ->
  get_prop data "url" = inr url ->
  truthy url = true ->
  spread h = inl e ->
  let st1 := exec (App.updateMainImage env url) st in
  App.onmessage h env e_data st
  = (inr tt,
     App.with_console (App.console st1 ++ [("⚠️ Invalid WS payload:", LStr e_data)]) st1).
Proof.
  intros Hp Hm Hu Ht Hs. unfold App.onmessage, App.parse. rewrite Hp.
  unfold try_catch, bind at 1 2, lift, ret. cbn. rewrite Hm. cbn.
  unfold bind at 1. rewrite Hu. cbn. rewrite Ht.
  destruct (updateMainImage_spec env url st) as [log Eu].
  unfold bind at 1. unfold exec. rewrite Eu. cbn.
  unfold bind at 1. rewrite Hs. cbn. reflexivity.
Qed.

(** What a run of [ws.onmessage] can have done to the device and to the
    flags, whatever list it closed over. *)
Lemma onmessage_frame (h : value) (env : Env) (text : string) (st : App.State) :
  let st' := exec (App.onmessage h env text) st in
  (App.storage st' = App.storage st
   \/ exists t, App.storage st' = <[App.STORAGE_KEY := t]> (App.storage st))
  /\ App.sent st' = App.sent st
  /\ App.refreshing st' = App.refreshing st
  /\ App.wsRef st' = App.wsRef st.
Proof.
  cbv zeta. destruct (JSON_parse text) as [data|] eqn:Ep.
  - destruct (new_image_payload data) eqn:En.
    + destruct (new_image_payload_true _ En) as (url & Hm & Hu & Ht).
      destruct (updateMainImage_spec env url st) as [log Eu].
      destruct (spread h) as [e | l] eqn:Es.
      * pose proof (App_onmessage_no_spread h env text data url e st
                      Ep Hm Hu Ht Es) as E. cbv zeta in E.
        unfold exec. rewrite E. unfold exec. rewrite Eu. cbn. tauto.
      * pose proof (App_onmessage_new_image h env text data url l st
                      Ep Hm Hu Ht Es) as E. cbv zeta in E.
        unfold exec. rewrite E. unfold exec. rewrite saveHistory_spec, Eu.
        destruct (setItem_ok env); cbn; eauto 6.
    + destruct (App_onmessage_other h env text data st Ep En) as [log E].
      unfold exec. rewrite E. cbn. tauto.
  - unfold exec, App.onmessage, App.parse. rewrite Ep. run. tauto.
Qed.

Lemma load_frame (env : Env) (st : App.State) :
  App.sent (exec (App.load env) st) = App.sent st
  /\ App.refreshing (exec (App.load env) st) = App.refreshing st
  /\ App.wsRef (exec (App.load env) st) = App.wsRef st.
Proof.
  repeat split; load_cases env.
Qed.

Lemma onRefresh_frame (env : Env) (st : App.State) :
  let st' := exec (App.onRefresh env) st in
  App.refreshing st' = true
  /\ App.wsRef st' = App.wsRef st
  /\ (App.sent st' = App.sent st
      \/ App.wsRef st = Some OPEN
         /\ App.sent st' = (App.sent st ++ [JSON_stringify refresh_request])%list).
Proof.
  cbv zeta. split; [refresh_cases env st|].
  unfold App.onRefresh, App.AsyncStorage_getItem, App.parse.
  destruct (getItem_ok env); [| split; [| left]; reflexivity].
  run; destruct (App.stored_text _) as [text|];
    [ destruct (JSON_parse text) as [parsed|]; [| split; [| left]; reflexivity] | ];
    cbn; destruct (App.wsRef st) as [[]|] eqn:Ew; cbn; rewrite ?Ew; auto.
Qed.

End Frame.

Section Events.
Context `{Platform}.

(** One event: the store, the frames sent and the two flags. *)
Lemma handle_frame (ev : App.event) (sys : App.System) :
  let st := App.app sys in
  let st' := App.app (App.handle ev sys) in
  (App.storage st' = App.storage st
   \/ exists t, App.storage st' = <[App.STORAGE_KEY := t]> (App.storage st))
  /\ (App.sent st' = App.sent st
      \/ is_refresh ev = true
         /\ App.sent st' = (App.sent st ++ [JSON_stringify refresh_request])%list)
  /\ App.refreshing st' = spinner (App.refreshing st) [ev].
Proof.
  cbv zeta. destruct sys as [st seen].
  destruct ev as [env | | state | | env text | | | env |];
    cbn [App.handle App.app App.seen spinner fold_left is_refresh];
    try (cbn; now auto).
  - (* the load effect *)
    rewrite load_storage. destruct (load_frame env st) as (-> & -> & _). auto.
  - (* a message *)
    destruct (onmessage_frame seen env text st) as (Hs & -> & -> & _). auto.
  - (* the refresh gesture *)
    rewrite onRefresh_storage.
    destruct (onRefresh_frame env st) as (-> & _ & [-> | [_ ->]]); auto.
Qed.

End Events.

(** X8: whatever the events of [src/App.tsx] (the load effect, re-runs of
    the socket effect, socket state changes, the socket handlers with any
    payload, the refresh gesture and its timer), of the device storage only
    the entry under the history key is ever written: every other entry is as
    it was, and the entry itself is never removed.  And nothing is ever sent
    on the socket but the control message [{type: 'refresh_request'}], at
    most once per refresh gesture. *)
Theorem only_history_entry_and_refresh_frames `{Platform}
        (evs : list App.event) (sys : App.System) :
  let st := App.app sys in
  let st' := App.app (App.run_events evs sys) in
  (forall k, k <> App.STORAGE_KEY -> App.storage st' !! k = App.storage st !! k)
  /\ (is_Some (App.storage st !! App.STORAGE_KEY) ->
      is_Some (App.storage st' !! App.STORAGE_KEY))
  /\ exists n,
       (n <= length (List.filter is_refresh evs))%nat
       /\ App.sent st'
          = (App.sent st ++ replicate n (JSON_stringify refresh_request))%list.
Proof.
  cbv zeta. unfold App.run_events. revert sys.
  induction evs as [| ev evs IH]; intros sys.
  - cbn. repeat split; auto. exists 0%nat. cbn. rewrite app_nil_r. auto.
  - cbn [fold_left]. destruct (IH (App.handle ev sys)) as (Ik & Is & n & In & Isent).
    destruct (handle_frame ev sys) as (Hs & Hsent & _). cbv zeta in Hs, Hsent.
    split; [| split].
    + intros k Hk. rewrite (Ik k Hk).
      destruct Hs as [-> | [t ->]]; [reflexivity|].
      now rewrite lookup_insert_ne.
    + intros Hsome. apply Is.
      destruct Hs as [-> | [t ->]]; [exact Hsome|].
      rewrite lookup_insert_eq. eauto.
    + destruct Hsent as [E | [Er E]].
      * exists n. split; [| now rewrite Isent, E].
        cbn. destruct (is_refresh ev); cbn; lia.
      * exists (S n). split.
        -- cbn. rewrite Er. cbn. lia.
        -- rewrite Isent, E, <- app_assoc. reflexivity.
Qed.

(** X9: the [refreshing] flag of the refresh control is on exactly when, of
    the refresh gestures and timer expiries so far, the last was a gesture:
    [onRefresh] sets it on every path (also when the re-read throws or the
    socket is not open), only the timer clears it, and no other handler or
    effect touches it. *)
Theorem refreshing_follows_gesture_and_timer `{Platform}
        (evs : list App.event) (sys : App.System) :
  App.refreshing (App.app (App.run_events evs sys))
  = spinner (App.refreshing (App.app sys)) evs.
Proof.
  unfold App.run_events. revert sys.
  induction evs as [| ev evs IH]; intros sys; [reflexivity|].
  cbn [fold_left]. rewrite IH.
  destruct (handle_frame ev sys) as (_ & _ & ->). reflexivity.
Qed.

(** ** Every qualifying message, in order *)

Section Traces.
Context `{Platform}.

Lemma record_of_spec (env : Env) (text : string) :
  match record_of env text with
  | Some r =>
      exists data url,
        JSON_parse text = Some data
        /\ get_prop data "message" = inr (VStr "New image")
        /\ get_prop data "url" = inr url /\ truthy url = true
        /\ r = VObj [("url", url); ("time", VStr (now env))]
  | None =>
      JSON_parse text = None
      \/ exists data, JSON_parse text = Some data /\ new_image_payload data = false
  end.
Proof.
  unfold record_of. destruct (JSON_parse text) as [data|] eqn:Ep; [| now left].
  destruct (new_image_payload data) eqn:En; [| right; eauto].
  destruct (new_image_payload_true _ En) as (url & Hm & Hu & Ht).
  rewrite Hu. exists data, url. auto.
Qed.

(** One message of [src/App.tsx] and the render after it. *)
Lemma in_step_one (env : Env) (text : string) (sys : App.System) (l : list value) :
  App.history (App.app sys) = VArr l ->
  App.seen sys = VArr l ->
  let sys' := App.handle App.Rendered (App.handle (App.Message env text) sys) in
  let l' := (option_list (record_of env text) ++ l)%list in
  App.history (App.app sys') = VArr l'
  /\ App.seen sys' = VArr l'
  /\ App.storage (App.app sys')
     = match record_of env text with
       | Some _ => if setItem_ok env
                   then <[App.STORAGE_KEY := JSON_stringify (VArr l')]>
                          (App.storage (App.app sys))
                   else App.storage (App.app sys)
       | None => App.storage (App.app sys)
       end.
Proof.
  intros Hh Hs. destruct sys as [st seen]. cbn in Hh, Hs. subst seen. cbv zeta.
  cbn [App.handle App.app App.seen App.history App.with_wsRef App.storage].
  pose proof (record_of_spec env text) as R.
  destruct (record_of env text) as [r|].
  - destruct R as (data & url & Ep & Hm & Hu & Ht & ->).
    pose proof (App_onmessage_new_image (VArr l) env text data url l st
                  Ep Hm Hu Ht eq_refl) as E. cbv zeta in E.
    destruct (updateMainImage_spec env url st) as [log Eu].
    unfold exec. rewrite E. unfold exec. rewrite saveHistory_spec, Eu.
    destruct (setItem_ok env); cbn; auto.
  - assert (E : exists log, App.onmessage (VArr l) env text st
                            = (inr tt, App.with_console (App.console st ++ log) st)).
    { destruct R as [Ep | (data & Ep & En)].
      - unfold App.onmessage, App.parse. rewrite Ep. eexists [_]. reflexivity.
      - exact (App_onmessage_other (VArr l) env text data st Ep En). }
    destruct E as [log E]. unfold exec. rewrite E. cbn. auto.
Qed.

(** One event of the earlier variant. *)
Lemma Part000_handle_spec (ev : Part000.event) (st : Part000.State) :
  let st' := Part000.handle ev st in
  match records_of [ev] with
  | r :: _ =>
      Part000.history st' = r :: Part000.history st
      /\ get_prop r "url" = inr (Part000.imageUri st')
      /\ is_record r
  | [] =>
      Part000.history st' = Part000.history st
      /\ Part000.imageUri st' = Part000.imageUri st
  end.
Proof.
  cbv zeta. destruct ev as [| env text | message |]; try (cbn; now auto).
  unfold records_of. cbn [omap list_omap Part000.handle].
  pose proof (record_of_spec env text) as R.
  destruct (record_of env text) as [r|].
  - destruct R as (data & url & Ep & Hm & Hu & Ht & ->).
    unfold exec, Part000.onmessage, Part000.parse. rewrite Ep. run.
    rewrite Hm. cbn. rewrite Hu. cbn. rewrite Ht. cbn.
    repeat split. exists url, (now env). auto.
  - assert (E : exists log, Part000.onmessage env text st
                            = (inr tt, Part000.mkState (Part000.status st)
                                         (Part000.imageUri st) (Part000.history st)
                                         (Part000.console st ++ log))).
    { destruct R as [Ep | (data & Ep & En)].
      - unfold Part000.onmessage, Part000.parse. rewrite Ep. eexists [_]. reflexivity.
      - exact (Part000_onmessage_other env text data st Ep En). }
    destruct E as [log E]. unfold exec. rewrite E. cbn. auto.
Qed.

Lemma records_of_cons (ev : Part000.event) (evs : list Part000.event) :
  records_of (ev :: evs) = (records_of [ev] ++ records_of evs)%list.
Proof.
  unfold records_of. cbn. destruct ev; try reflexivity.
  destruct (record_of env text); reflexivity.
Qed.

Lemma records_of_is_record (evs : list Part000.event) :
  Forall is_record (records_of evs).
Proof.
  induction evs as [| ev evs IH]; [constructor|].
  rewrite records_of_cons. apply Forall_app. split; [| exact IH].
  pose proof (Part000_handle_spec ev Part000.initial) as S. cbv zeta in S.
  destruct (records_of [ev]) as [| r rs] eqn:Er; [constructor|].
  assert (rs = []) as ->.
  { unfold records_of in Er. cbn in Er. destruct ev; try discriminate Er.
    destruct (record_of env text); inversion Er. reflexivity. }
  constructor; [apply S | constructor].
Qed.

End Traces.

(** X10: when every message of [src/App.tsx] is followed by the re-run of the
    socket effect that the changed list causes (so each handler closed over
    the current list), no record is lost: after any number of messages the
    history list holds one record for each qualifying message, the newest
    first, in front of the list that was there, whether the writes to the
    store were accepted or not, and the messages that do not qualify leave no
    trace in it.  When every write is accepted and some message qualified,
    the entry of the store is the text of that whole list. *)
Theorem messages_in_step_are_all_recorded `{Platform}
        (messages : list (Env * string)) (sys : App.System) (l : list value) :
  App.history (App.app sys) = VArr l ->
  App.seen sys = VArr l ->
  let sys' := App.run_events (in_step messages) sys in
  let records := omap (fun m => record_of (fst m) (snd m)) messages in
  App.history (App.app sys') = VArr (rev records ++ l)
  /\ App.seen sys' = VArr (rev records ++ l)
  /\ (Forall (fun m => setItem_ok (fst m) = true) messages ->
      App.storage (App.app sys') !! App.STORAGE_KEY
      = match records with
        | [] => App.storage (App.app sys) !! App.STORAGE_KEY
        | _ :: _ => Some (JSON_stringify (VArr (rev records ++ l)))
        end).
Proof.
  cbv zeta. unfold App.run_events. revert sys l.
  induction messages as [| [env text] ms IH]; intros sys l Hh Hs.
  - cbn. auto.
  - assert (Eo : omap (fun m : Env * string => record_of (fst m) (snd m))
                      ((env, text) :: ms)
                 = match record_of env text with
                   | Some r => r :: omap (fun m => record_of (fst m) (snd m)) ms
                   | None => omap (fun m => record_of (fst m) (snd m)) ms
                   end) by reflexivity.
    rewrite Eo. clear Eo.
    change (in_step ((env, text) :: ms))
      with (App.Message env text :: App.Rendered :: in_step ms).
    cbn [fold_left].
    destruct (in_step_one env text sys l Hh Hs) as (Hh1 & Hs1 & Hst1).
    cbv zeta in Hh1, Hs1, Hst1.
    specialize (IH _ _ Hh1 Hs1).
    destruct IH as (Ih & Is & Ist).
    destruct (record_of env text) as [r|]; cbn [option_list app] in *.
    + assert (Er : forall rs : list value,
                 (rev (r :: rs) ++ l = rev rs ++ r :: l)%list).
      { intros rs. cbn. now rewrite <- app_assoc. }
      rewrite !Er. split; [exact Ih|]. split; [exact Is|].
      intros Hall. apply Forall_cons in Hall as [Hok Hall]. cbn in Hok.
      rewrite (Ist Hall), Hst1, Hok.
      destruct (omap _ ms); [| reflexivity].
      now rewrite lookup_insert_eq.
    + split; [exact Ih|]. split; [exact Is|].
      intros Hall. apply Forall_cons in Hall as [_ Hall].
      rewrite (Ist Hall), Hst1. reflexivity.
Qed.

Lemma messages_in_step_are_all_recorded_witness :
  let messages := [(fair_env, new_image_text "https://x/a.png");
                   (failing_env, ping_text);
                   (failing_env, new_image_text "https://x/b.png")] in
  App.history (App.app (@App.run_events reference (in_step messages) (App.mount ∅)))
  = VArr [record "https://x/b.png" "10:00"; record "https://x/a.png" "10:00"].
Proof.
  cbv zeta.
  pose proof (@messages_in_step_are_all_recorded reference
                [(fair_env, new_image_text "https://x/a.png");
                 (failing_env, ping_text);
                 (failing_env, new_image_text "https://x/b.png")]
                (App.mount ∅) [] ltac:(reflexivity) ltac:(reflexivity)) as W.
  cbv zeta in W. destruct W as (W & _). rewrite W. vm_compute. reflexivity.
Defined.

(** X11: in the earlier variant (part_000), whose handler passes an updater
    to [setHistory], no record is ever lost, whatever the order of the socket
    events: after any events the history list holds one record for each
    qualifying message, the newest first, in front of the list that was
    there; the other events and the messages that do not qualify add
    nothing.  The current image is the [url] of the newest of those records,
    and is untouched when there is none. *)
Theorem part000_records_every_image `{Platform}
        (evs : list Part000.event) (st : Part000.State) :
  let st' := Part000.run_events evs st in
  Part000.history st' = (rev (records_of evs) ++ Part000.history st)%list
  /\ match rev (records_of evs) with
     | r :: _ => get_prop r "url" = inr (Part000.imageUri st')
     | [] => Part000.imageUri st' = Part000.imageUri st
     end.
Proof.
  cbv zeta. unfold Part000.run_events. revert st.
  induction evs as [| ev evs IH]; intros st; [cbn; auto|].
  cbn [fold_left]. rewrite records_of_cons.
  destruct (IH (Part000.handle ev st)) as (Ih & Ii).
  pose proof (Part000_handle_spec ev st) as S. cbv zeta in S.
  destruct (records_of [ev]) as [| r rs] eqn:Er.
  - destruct S as (Sh & Si). cbn [app]. rewrite Ih, Sh. split; [reflexivity|].
    destruct (rev (records_of evs)); [now rewrite Ii | exact Ii].
  - assert (rs = []) as ->.
    { unfold records_of in Er. cbn in Er. destruct ev; try discriminate Er.
      destruct (record_of env text); inversion Er. reflexivity. }
    destruct S as (Sh & Si & _). cbn [app].
    replace (rev (r :: records_of evs)) with (rev (records_of evs) ++ [r])%list
      by reflexivity.
    rewrite Ih, Sh, <- app_assoc. split; [reflexivity|].
    destruct (rev (records_of evs)) as [| r' rs']; cbn [app].
    + now rewrite Ii.
    + exact Ii.
Qed.

(** ** The earlier variant: what it shows *)

Section Part000Render.
Context `{Platform}.

(** The list of the earlier variant holds records only, and the current
    image is that of the first of them. *)
Lemma Part000_reachable (evs : list Part000.event) :
  let st := Part000.run_events evs Part000.initial in
  Forall is_record (Part000.history st)
  /\ match Part000.history st with
     | r :: _ => get_prop r "url" = inr (Part000.imageUri st)
     | [] => Part000.imageUri st = VNull
     end.
Proof.
  cbv zeta. unfold Part000.run_events.
  assert (I : Forall is_record (Part000.history Part000.initial)
              /\ match Part000.history Part000.initial with
                 | r :: _ => get_prop r "url" = inr (Part000.imageUri Part000.initial)
                 | [] => Part000.imageUri Part000.initial = VNull
                 end) by (split; [constructor | reflexivity]).
  revert I. generalize Part000.initial.
  induction evs as [| ev evs IH]; intros st I; [exact I|].
  cbn [fold_left]. apply IH. destruct I as (If & Ii).
  pose proof (Part000_handle_spec ev st) as S. cbv zeta in S.
  destruct (records_of [ev]) as [| r rs].
  - destruct S as (-> & ->). auto.
  - destruct S as (-> & Su & Sr). split; [constructor; assumption | exact Su].
Qed.

Lemma history_rows_records (items : list value) (index : nat) :
  Forall is_record items ->
  exists rows,
    Part000.history_rows index items = inr rows
    /\ length rows = length items
    /\ forall i r,
         items !! i = Some r ->
         exists url time,
           r = VObj [("url", url); ("time", VStr time)]
           /\ rows !! i
              = Some (EView (Some (index + i)%nat) [EImage url None; EText (VStr time)]).
Proof.
  intros Hf. revert index.
  induction Hf as [| r items (url & time & -> & Ht) Hf IH]; intros index.
  - exists []. repeat split. intros i r Hi. discriminate Hi.
  - destruct (IH (S index)) as (rows & E & El & Ei).
    exists (EView (Some index) [EImage url None; EText (VStr time)] :: rows).
    split; [| split].
    + cbn [Part000.history_rows].
      change (get_prop (VObj [("url", url); ("time", VStr time)]) "url")
        with (@inr exn _ url).
      change (get_prop (VObj [("url", url); ("time", VStr time)]) "time")
        with (@inr exn _ (VStr time)).
      cbv beta iota. rewrite E. reflexivity.
    + cbn. now rewrite El.
    + intros [| i] r Hi.
      * inversion Hi; subst r. exists url, time.
        replace (index + 0)%nat with index by lia. auto.
      * destruct (Ei i r Hi) as (u & t & -> & Er). exists u, t.
        replace (index + S i)%nat with (S index + i)%nat by lia. auto.
Qed.

End Part000Render.

(** X12: in the earlier variant (part_000), started with its initial hooks,
    the render throws after no sequence of socket events, although it reads
    [item.url] and [item.time] of every element itself: every element of the
    list is a record made by the handler.  With an empty list it shows the
    texts "No image yet" and "No history yet"; otherwise it shows one row
    per record, in the order of the list and keyed by position, with the
    record's [url] and [time], and the main image is the image of the first
    row. *)
Theorem part000_render_never_throws `{Platform} (evs : list Part000.event) :
  let st := Part000.run_events evs Part000.initial in
  exists image rows,
    Part000.render st
    = inr (EView None
             [EText (VStr "Door Safety System");
              EText (VStr (Part000.status st));
              EView None [image];
              EText (VStr "Detection History");
              EScrollView None rows])
    /\ match Part000.history st with
       | [] => image = EText (VStr "No image yet")
               /\ rows = [EText (VStr "No history yet")]
       | _ :: _ =>
           length rows = length (Part000.history st)
           /\ forall i r,
                Part000.history st !! i = Some r ->
                exists url time,
                  r = VObj [("url", url); ("time", VStr time)]
                  /\ rows !! i
                     = Some (EView (Some i) [EImage url None; EText (VStr time)])
                  /\ (i = 0%nat -> image = EImage url None)
       end.
Proof.
  cbv zeta. destruct (Part000_reachable evs) as (Hf & Hi). cbv zeta in Hf, Hi.
  remember (Part000.run_events evs Part000.initial) as st eqn:Est. clear Est.
  unfold Part000.render.
  destruct (Part000.history st) as [| r items] eqn:Eh.
  - rewrite Hi. cbn. eauto.
  - destruct (history_rows_records (r :: items) 0 Hf) as (rows & E & El & Ei).
    rewrite E.
    apply Forall_cons in Hf as [(url & time & -> & Ht) _].
    change (get_prop (VObj [("url", url); ("time", VStr time)]) "url")
      with (@inr exn _ url) in Hi.
    inversion Hi as [Eu]. rewrite <- Eu, Ht.
    exists (EImage url None), rows. split; [reflexivity|]. split; [exact El|].
    intros i r' Hr'. destruct (Ei i r' Hr') as (u & t & -> & Er).
    exists u, t. split; [reflexivity|]. split; [exact Er|].
    intros ->. inversion Hr'. reflexivity.
Qed.

(** X13: a handler of [src/App.tsx] that closed over a history it cannot
    spread (neither an array nor a string: what the load effect sets when the
    stored text is JSON but not a list, such as an object) handles a
    qualifying message halfway: the main image and its height are updated,
    then the spread throws inside the try, so no record is added, nothing is
    written to the store, the status is not set, and the message is logged as
    an invalid payload.  The handler still completes normally. *)
Theorem unspreadable_history_records_nothing `{Platform} (h : value) (env : Env)
        (e_data : string) (data url : value) (e : exn) (st : App.State) :
  JSON_parse e_data = Some data ->
  get_prop data "message" = inr (VStr "New image") ->
  get_prop data "url" = inr url ->
  truthy url = true ->
  spread h = inl e ->
  let st' := exec (App.onmessage h env e_data) st in
  outcome (App.onmessage h env e_data) st = inr tt
  /\ App.imageUri st' = url
  /\ App.imageHeight st'
     = match getSize env url with
       | Size width height =>
           PrimFloat.mul (PrimFloat.sub window_width 40) (PrimFloat.div height width)
       | NoSize _ => 250%float
       end
  /\ App.history st' = App.history st
  /\ App.storage st' = App.storage st
  /\ App.status st' = App.status st
  /\ App.sent st' = App.sent st
  /\ last (App.console st') = Some ("⚠️ Invalid WS payload:", LStr e_data).
Proof.
  intros Hp Hm Hu Ht Hs. cbv zeta.
  pose proof (App_onmessage_no_spread h env e_data data url e st Hp Hm Hu Ht Hs) as E.
  cbv zeta in E. destruct (updateMainImage_spec env url st) as [log Eu].
  unfold exec, outcome. rewrite E. unfold exec. rewrite Eu. cbn.
  repeat split. apply last_snoc.
Qed.

Lemma unspreadable_history_records_nothing_witness :
  let h := VObj [] in
  let st := App.with_history h (App.initial {[ App.STORAGE_KEY := "{}" ]}) in
  let st' := exec (@App.onmessage reference h fair_env
                     (new_image_text "https://x/a.png")) st in
  spread h = inl TypeError
  /\ App.imageUri st' = VStr "https://x/a.png"
  /\ App.history st' = h
  /\ App.status st' = "Disconnected".
Proof.
  cbv zeta. split; [reflexivity|].
  pose proof (@unspreadable_history_records_nothing reference (VObj []) fair_env
                (new_image_text "https://x/a.png")
                (new_image "https://x/a.png") (VStr "https://x/a.png") TypeError
                (App.with_history (VObj [])
                                  (App.initial {[ App.STORAGE_KEY := "{}" ]}))
                ltac:(vm_compute; reflexivity) ltac:(reflexivity)
                ltac:(reflexivity) ltac:(reflexivity) ltac:(reflexivity)) as W.
  cbv zeta in W. destruct W as (_ & W1 & _ & W2 & _ & W3 & _).
  split; [exact W1|]. split; [exact W2 | exact W3].
Defined.

(** ** A row of the history *)

(** X14: a [HistoryImage] row of [src/App.tsx] throws a TypeError, in its
    effect and in what it returns, exactly when its item is [null] or
    [undefined] (which a stored list may hold: the rows are made from whatever
    the list contains).  For every other item the effect ends with a height
    and the row shows an image of [item.url] at the height the row holds and
    the text [item.time], each [undefined] when the item has no such
    property. *)
Theorem history_row_throws_on_null_only (env : Env) (item : value)
        (width height : float) :
  (item = VUndefined \/ item = VNull ->
   App.HistoryImage_view item height = inl TypeError
   /\ App.HistoryImage env item width = inl TypeError)
  /\ (item <> VUndefined -> item <> VNull ->
      exists url time,
        get_prop item "url" = inr url
        /\ get_prop item "time" = inr time
        /\ App.HistoryImage_view item height
           = inr (EView None [EImage url (Some height); EText time])
        /\ App.HistoryImage env item width
           = inr match getSize env url with
                 | Size w h => PrimFloat.mul width (PrimFloat.div h w)
                 | NoSize _ => 250%float
                 end).
Proof.
  split.
  - intros [-> | ->]; split; reflexivity.
  - intros Hu Hn.
    destruct (get_prop item "url") as [e | url] eqn:Eu.
    { apply get_prop_throws in Eu as [[-> | ->] _]; contradiction. }
    destruct (get_prop item "time") as [e | time] eqn:Et.
    { apply get_prop_throws in Et as [[-> | ->] _]; contradiction. }
    exists url, time. unfold App.HistoryImage_view, App.HistoryImage.
    rewrite Eu, Et. repeat split. destruct (getSize env url); reflexivity.
Qed.

(** ** The screen in every reachable state *)

Section Screen.
Context `{Platform}.







(** What the engine is assumed to do: read back the text values it prints. *)
Hypothesis reads_back :
  forall v, Reference.text_value v = true -> JSON_parse (JSON_stringify v) = Some v.




End Screen.


